(** * ESP32 SmartAlarm: clock synchronisation, zone selection and alarm matching

    A shallow embedding of [firmware/src/main.cpp]: the MQTT message handler
    [mqttCallback], the button interrupt [onButton] and the Arduino [loop],
    over an explicit record of the firmware's global variables.

    Machine integers are [Z] with the wrap-around of their C type written
    out.  A read through a [const char*] outside the object it points to is
    undefined behaviour in C; the embedding gives it the result [None], and
    the functions that perform such reads live in the [option] monad. *)

From Stdlib Require Import ZArith List String Ascii Bool Lia.
From Stdlib Require Import DecimalString.
Import ListNotations.

Local Open Scope string_scope.
Local Open Scope list_scope.
Local Open Scope Z_scope.

(** ** Machine integers (ESP32: [int] and [long] are 32 bits wide) *)

Definition to_uint8 (z : Z) : Z := z mod 256.
Definition to_uint32 (z : Z) : Z := z mod 2 ^ 32.
Definition to_long (z : Z) : Z := (z + 2 ^ 31) mod 2 ^ 32 - 2 ^ 31.

(** ** Reads that may leave their object *)

Definition bind {A B : Type} (x : option A) (k : A -> option B) : option B :=
  match x with
  | Some a => k a
  | None => None
  end.

Notation "x <- e ;; k" := (bind e (fun x => k))
  (at level 61, e at next level, right associativity).
Notation "' p <- e ;; k" := (bind e (fun p => k))
  (at level 61, p pattern, e at next level, right associativity).

(** ** C strings and Arduino [String]

    A [const char*] is [None] for the null pointer and [Some s] for a pointer
    to the characters of [s] followed by the terminating NUL.  [char_at t i]
    is the read [t[i]]: index [length s] holds the terminator, every larger
    index is outside the object. *)

Definition char_code (c : ascii) : Z := Z.of_N (N_of_ascii c).

Definition char_at (t : option string) (i : nat) : option Z :=
  match t with
  | None => None
  | Some s =>
      match String.get i s with
      | Some c => Some (char_code c)
      | None => if Nat.eqb i (String.length s) then Some 0 else None
      end
  end.

(** An Arduino [String] that is built byte by byte may hold NUL bytes; a C
    function that is handed its buffer sees the characters before the first
    of them. *)
Fixpoint c_str (s : string) : string :=
  match s with
  | EmptyString => EmptyString
  | String c rest =>
      if Ascii.eqb c zero then EmptyString else String c (c_str rest)
  end.

(** [s == cstr], for a [String s] and a [const char* cstr]: the [strcmp] of
    the two buffers is 0. *)
Definition String_equals (s cstr : string) : bool :=
  String.eqb (c_str s) (c_str cstr).

(** [String z = p]: the Arduino constructor copies the characters, and builds
    the empty string from a null pointer. *)
Definition String_of (p : option string) : string :=
  match p with
  | Some s => s
  | None => ""
  end.

(** ** The ArduinoJson document after [deserializeJson]

    ArduinoJson is a library the firmware links against; its parser is not
    embedded.  A message carries, next to its payload text, the document that
    [deserializeJson(doc, msg)] leaves behind: [JNull] when nothing could be
    decoded.  The accessors below are the conversions the firmware uses.
    [JFloat m e] is the fractional number [m * 2 ^ e]. *)

Unset Elimination Schemes.
Inductive JsonVariant : Type :=
| JNull
| JBool (b : bool)
| JInteger (z : Z)
| JFloat (m e : Z)
| JString (s : string)
| JArray (elems : list JsonVariant)
| JObject (members : list (string * JsonVariant)).
Set Elimination Schemes.

Fixpoint getMember (key : string) (members : list (string * JsonVariant))
  : JsonVariant :=
  match members with
  | [] => JNull
  | (k, v) :: rest => if String.eqb k key then v else getMember key rest
  end.

(** [v[key]]: the null variant unless [v] is an object that has the member. *)
Definition subscript (v : JsonVariant) (key : string) : JsonVariant :=
  match v with
  | JObject members => getMember key members
  | _ => JNull
  end.

Definition fits_uint32 (z : Z) : Z :=
  if (0 <=? z) && (z <? 2 ^ 32) then z else 0.

(** Conversion to [uint32_t]: an integer that fits is returned; null, an
    integer that does not fit, an array and an object give 0.  A text, a
    boolean and a fractional number go through the number parser and the
    rounding of the library, which are not embedded: [scalar] is the
    [uint32_t] that the library makes of such a member, and comes with the
    message. *)
Definition as_uint32 (scalar : Z) (v : JsonVariant) : Z :=
  match v with
  | JInteger z => fits_uint32 z
  | JBool _ | JFloat _ _ | JString _ => to_uint32 scalar
  | JNull | JArray _ | JObject _ => 0
  end.

(** Conversion to [const char*]: null unless the variant is a string. *)
Definition as_cstr (v : JsonVariant) : option string :=
  match v with
  | JString s => Some s
  | _ => None
  end.

(** [as<JsonArray>()] followed by iteration: a variant that is not an array
    gives the null array, over which the range-for runs zero times. *)
Definition as_JsonArray (v : JsonVariant) : list JsonVariant :=
  match v with
  | JArray elems => elems
  | _ => []
  end.

(** ** Global variables of the firmware *)

Record TZ : Type := { offset : Z; name : string }.

Record Alarm : Type := { h : Z; m : Z; zone : string }.

Definition DEBOUNCE : Z := 200.

(** [rtc] holds the epoch of the ESP32Time object: [setTime] stores it,
    [getEpoch] reads it back as an [unsigned long], the hardware timer
    advances it. *)
Record State : Type := mkState {
  currentZone : Z;
  buttonPressed : bool;
  lastDebounceTime : Z;
  alarms : list Alarm;
  rtc : Z
}.

Definition setTime (epoch : Z) (st : State) : State :=
  mkState (currentZone st) (buttonPressed st) (lastDebounceTime st)
          (alarms st) epoch.

Definition getEpoch (st : State) : Z := to_uint32 (rtc st).

Definition set_currentZone (i : Z) (st : State) : State :=
  mkState i (buttonPressed st) (lastDebounceTime st) (alarms st) (rtc st).

Definition set_alarms (l : list Alarm) (st : State) : State :=
  mkState (currentZone st) (buttonPressed st) (lastDebounceTime st) l (rtc st).

(** The interrupt service routine. *)
Definition onButton (st : State) : State :=
  mkState (currentZone st) true (lastDebounceTime st) (alarms st) (rtc st).

(** What the firmware sends to its peripherals. *)
Inductive Output : Type :=
| Publish (topic payload : string)
| LcdTime (Dh Dm Ds : Z)
| LcdName (text : string)
| Tone (freq : Z)
| Delay (ms : Z)
| NoTone.

(** An inbound MQTT message: the topic (a C string), the payload bytes (any
    byte, NUL included), the decoded document, and what the library's
    conversion to [uint32_t] gives for a member of the document that is a
    text, a boolean or a fractional number. *)
Record Message : Type := {
  topic : string;
  payload : string;
  json : JsonVariant;
  scalar : Z
}.

(** ** The firmware, over its zone table *)

Section Firmware.

(** [TZ zones[]]: fixed at build time. *)
Variable zones : list TZ.

(** [sizeof(zones) / sizeof(zones[0])], stored in a [uint8_t]. *)
Definition ZONE_COUNT : Z := to_uint8 (Z.of_nat (List.length zones)).

(** [zones[i]]; an index beyond the array leaves the object. *)
Definition zone_at (i : Z) : option TZ :=
  if i <? 0 then None else nth_error zones (Z.to_nat i).

(** *** [mqttCallback], topic [clock/zone] (lines 74-79)

    [zone_loop msg n i cz] runs the [for] loop from index [i] with [n]
    iterations left; [cz] is [currentZone] on entry. *)
Fixpoint zone_loop (msg : string) (n : nat) (i : Z) (cz : Z) : option Z :=
  match n with
  | O => Some cz
  | S n' =>
      z <- zone_at i ;;
      if String_equals msg (name z) then Some i
      else zone_loop msg n' (to_uint8 (i + 1)) cz
  end.

(** *** [mqttCallback], topic [clock/alarms] (lines 86-93) *)

(** One iteration of the range-for: the four reads of [t] at the fixed
    positions 0, 1, 3 and 4, then [push_back].  The arithmetic is done in
    [int] and stored in a [uint8_t]; the stored value is the same whether
    [char] is signed or not, since both readings differ by a multiple of
    256. *)
Definition alarm_of_entry (obj : JsonVariant) : option Alarm :=
  let t := as_cstr (subscript obj "time") in
  let z := String_of (as_cstr (subscript obj "zone")) in
  t0 <- char_at t 0 ;;
  t1 <- char_at t 1 ;;
  let hh := to_uint8 ((t0 - 48) * 10 + (t1 - 48)) in
  t3 <- char_at t 3 ;;
  t4 <- char_at t 4 ;;
  let mm := to_uint8 ((t3 - 48) * 10 + (t4 - 48)) in
  Some {| h := hh; m := mm; zone := z |}.

Fixpoint alarms_loop (elems : list JsonVariant) (table : list Alarm)
  : option (list Alarm) :=
  match elems with
  | [] => Some table
  | obj :: rest =>
      a <- alarm_of_entry obj ;;
      alarms_loop rest (table ++ [a])
  end.

(** *** [mqttCallback] (lines 60-95) *)
Definition mqttCallback (msg : Message) (st : State) : option State :=
  if String.eqb (topic msg) "clock/sync" then
    let doc := json msg in
    let epoch := as_uint32 (scalar msg) (subscript doc "epoch") in
    Some (setTime epoch st)
  else if String.eqb (topic msg) "clock/zone" then
    i <- zone_loop (payload msg) (Z.to_nat ZONE_COUNT) 0 (currentZone st) ;;
    Some (set_currentZone i st)
  else if String.eqb (topic msg) "clock/alarms" then
    let cleared := set_alarms [] st in
    let doc := json msg in
    table <- alarms_loop (as_JsonArray doc) (alarms cleared) ;;
    Some (set_alarms table cleared)
  else Some st.

(** [mqttClient.loop()]: the pending messages are handed to the callback one
    after the other. *)
Fixpoint mqtt_loop (inbox : list Message) (st : State) : option State :=
  match inbox with
  | [] => Some st
  | msg :: rest =>
      st' <- mqttCallback msg st ;;
      mqtt_loop rest st'
  end.

(** *** [loop], the button block (lines 148-153)

    [next_zone] is the right-hand side of line 151, computed in [int] and
    stored in a [uint8_t].  [advance_zone] is the body of the [if]; the
    remainder by a zero [ZONE_COUNT] is undefined.  [now1] and [now2] are
    the two readings of [millis()]; the subtraction is done in
    [unsigned long]. *)
Definition next_zone (cz : Z) : Z := to_uint8 (Z.rem (cz + 1) ZONE_COUNT).

Definition advance_zone (now2 : Z) (st : State)
  : option (State * list Output) :=
  if ZONE_COUNT =? 0 then None
  else
    let cz := next_zone (currentZone st) in
    z <- zone_at cz ;;
    Some (mkState cz false (to_uint32 now2) (alarms st) (rtc st),
          [Publish "clock/zone" (name z)]).

Definition button_block (now1 now2 : Z) (st : State)
  : option (State * list Output) :=
  if buttonPressed st && (DEBOUNCE <? to_uint32 (now1 - lastDebounceTime st))
  then advance_zone now2 st
  else Some (st, []).

(** *** [loop], the local time of day (lines 156-161) *)
Definition local_secs (epoch : Z) (off : Z) : Z :=
  let secs := to_long (Z.rem epoch 86400 + off) in
  to_long (Z.rem (to_long (Z.rem secs 86400 + 86400)) 86400).

Definition local_time (epoch : Z) (off : Z) : Z * Z * Z :=
  let secs := local_secs epoch off in
  let Dh := to_uint8 (Z.quot secs 3600) in
  let Dm := to_uint8 (Z.quot (Z.rem secs 3600) 60) in
  let Ds := to_uint8 (Z.rem secs 60) in
  (Dh, Dm, Ds).

(** *** [loop], the alarm scan (lines 173-180)

    The result is the alarm [a] at which the [if] was taken and the loop
    left through [break], if any. *)
Definition alarm_matches (zname : string) (Dh Dm : Z) (a : Alarm) : bool :=
  String.eqb (zone a) zname && (h a =? Dh) && (m a =? Dm).

Fixpoint alarm_scan (zname : string) (Dh Dm : Z) (table : list Alarm)
  : option Alarm :=
  match table with
  | [] => None
  | a :: rest =>
      if alarm_matches zname Dh Dm a then Some a
      else alarm_scan zname Dh Dm rest
  end.

Definition beep (fired : option Alarm) : list Output :=
  match fired with
  | Some _ => [Tone 1000; Delay 3000; NoTone]
  | None => []
  end.

(** *** [loop] (lines 142-183) *)
Definition loop (inbox : list Message) (now1 now2 : Z) (st : State)
  : option (State * list Output) :=
  st1 <- mqtt_loop inbox st ;;
  '(st2, published) <- button_block now1 now2 st1 ;;
  z <- zone_at (currentZone st2) ;;
  let epoch := getEpoch st2 in
  let '(Dh, Dm, Ds) := local_time epoch (offset z) in
  let fired := alarm_scan (name z) Dh Dm (alarms st2) in
  Some (st2,
        published ++ [LcdTime Dh Dm Ds; LcdName (name z)] ++ beep fired
          ++ [Delay 200]).

(** ** Runs of the firmware

    Between two passes of [loop] the button interrupt may fire (the time [t]
    of the edge, in milliseconds, is recorded for the statements below and
    does not reach the code) and the real-time clock counts seconds. *)
Inductive Event : Type :=
| EvButton (t : Z)
| EvSeconds (d : nat)
| EvLoop (inbox : list Message) (now1 now2 : Z).

Definition step (ev : Event) (st : State) : option (State * list Output) :=
  match ev with
  | EvButton _ => Some (onButton st, [])
  | EvSeconds d => Some (setTime (rtc st + Z.of_nat d) st, [])
  | EvLoop inbox now1 now2 => loop inbox now1 now2 st
  end.

Fixpoint run (evs : list Event) (st : State) : option (State * list Output) :=
  match evs with
  | [] => Some (st, [])
  | ev :: rest =>
      '(st1, out1) <- step ev st ;;
      '(st2, out2) <- run rest st1 ;;
      Some (st2, out1 ++ out2)
  end.

End Firmware.

(** The state after [setup()]: the initialisers of the globals; [boot] is
    what the real-time clock holds at power-up. *)
Definition initial (boot : Z) : State := mkState 2 false 0 [] boot.

Definition reachable (zones : list TZ) (st : State) : Prop :=
  exists boot evs out, run zones evs (initial boot) = Some (st, out).

(** The zone table of [main.cpp]. *)
Definition zones : list TZ :=
  [ {| offset := 0 * 3600; name := "UTC" |};
    {| offset := 2 * 3600; name := "CET" |};
    {| offset := 5 * 3600; name := "Tashkent" |};
    {| offset := -4 * 3600; name := "EST" |} ].

(** ** The display text and the broker connection *)

(** *** [loop], the text of the first LCD line (lines 166-168)

    The three [uint8_t] values are printed with [%02u]: in decimal, with at
    least two digits, padded with zeros on the left.  [snprintf] stores at
    most [size - 1] characters of the text. *)
Definition decimal (n : Z) : string :=
  NilZero.string_of_uint (N.to_uint (Z.to_N n)).

Definition fmt_02u (n : Z) : string :=
  let s := decimal n in
  if (String.length s <? 2)%nat then String "0" s else s.

Definition snprintf (size : nat) (text : string) : string :=
  substring 0 (size - 1) text.

Definition lcd_time (Dh Dm Ds : Z) : string :=
  snprintf 17
    (String.append (fmt_02u Dh)
       (String.append ":" (String.append (fmt_02u Dm)
          (String.append ":" (fmt_02u Ds))))).

(** *** [ensureMqtt] (lines 98-108)

    [connected] is the answer of [mqttClient.connected()], [accepted] the
    answer of [mqttClient.connect(...)]; the result lists what is asked of
    the broker. *)
Inductive Request : Type :=
| Connect (id user pass : string)
| Subscribe (topic : string).

Definition mqttUser : string := "new_user".
Definition mqttPassword : string := "first".

Definition ensureMqtt (connected accepted : bool) : list Request :=
  if negb connected then
    Connect "esp32-clock" mqttUser mqttPassword
    :: (if accepted
        then [Subscribe "clock/sync"; Subscribe "clock/zone";
              Subscribe "clock/alarms"]
        else [])
  else [].

(** ** Vocabulary of the statements *)

(** The selected index lies inside the table. *)
Definition zone_in_range (zones : list TZ) (st : State) : Prop :=
  0 <= currentZone st < ZONE_COUNT zones.

(** Honoured presses, one after the other, at the given times. *)
Fixpoint advances (zones : list TZ) (nows : list Z) (st : State)
  : option State :=
  match nows with
  | [] => Some st
  | now :: rest =>
      '(st1, _) <- advance_zone zones now st ;;
      advances zones rest st1
  end.

Definition is_publish (o : Output) : bool :=
  match o with
  | Publish _ _ => true
  | _ => false
  end.

Definition is_tone (o : Output) : bool :=
  match o with
  | Tone _ => true
  | _ => false
  end.

(** Every zone advance is published once, and nothing else is. *)
Definition zone_advances (out : list Output) : nat :=
  List.length (filter is_publish out).

Definition tones (out : list Output) : nat :=
  List.length (filter is_tone out).

Fixpoint edge_times (evs : list Event) : list Z :=
  match evs with
  | [] => []
  | EvButton t :: rest => t :: edge_times rest
  | _ :: rest => edge_times rest
  end.

(** An entry of the alarm list as the protocol writes it. *)
Definition entry (time zone : string) : JsonVariant :=
  JObject [("time", JString time); ("zone", JString zone)].

Definition time_of (obj : JsonVariant) : option string :=
  as_cstr (subscript obj "time").

Definition digit (d : Z) : ascii := ascii_of_N (Z.to_N (48 + d)).

(** The text ["HH:MM"] of two two-digit numbers. *)
Definition time_text (HH MM : Z) : string :=
  String (digit (HH / 10)) (String (digit (HH mod 10)) (String ":"
    (String (digit (MM / 10)) (String (digit (MM mod 10)) EmptyString)))).

Definition alarm_message (payload : string) (doc : JsonVariant) : Message :=
  {| topic := "clock/alarms"; payload := payload; json := doc; scalar := 0 |}.

Definition is_array (v : JsonVariant) : bool :=
  match v with
  | JArray _ => true
  | _ => false
  end.

(** The document of a time-sync message holds nothing that converts to an
    epoch: nothing was decoded or the document is not an object, the member
    is missing or null, is an array or an object, or is an integer outside
    the [uint32_t] range. *)
Definition epoch_unparsable (doc : JsonVariant) : bool :=
  match subscript doc "epoch" with
  | JInteger z => (z <? 0) || (2 ^ 32 <=? z)
  | JNull | JArray _ | JObject _ => true
  | JBool _ | JFloat _ _ | JString _ => false
  end.

(** The epoch member is a scalar whose conversion is left to the library:
    a text, a boolean or a fractional number. *)
Definition epoch_scalar (doc : JsonVariant) : bool :=
  match subscript doc "epoch" with
  | JBool _ | JFloat _ _ | JString _ => true
  | _ => false
  end.

(** The zone names as [strcmp] reads them. *)
Definition c_names (zones : list TZ) : list string :=
  map (fun z => c_str (name z)) zones.

(** The eight characters [HH:MM:SS] of three two-digit numbers. *)
Definition clock_text (HH MM SS : Z) : string :=
  String (digit (HH / 10)) (String (digit (HH mod 10)) (String ":"
    (String (digit (MM / 10)) (String (digit (MM mod 10)) (String ":"
      (String (digit (SS / 10)) (String (digit (SS mod 10))
        EmptyString))))))).

(** The pending press, counted. *)
Definition pending (st : State) : nat :=
  if buttonPressed st then 1%nat else 0%nat.

(** Every offset of the table can be added to a second of the day in a
    [long] without overflow. *)
Definition offsets_fit (zones : list TZ) : Prop :=
  Forall (fun z => - 2 ^ 31 <= offset z <= 2 ^ 31 - 86400) zones.

(** The four reads of every entry of an alarm-sync message stay inside the
    entry's time string. *)
Definition readable (msg : Message) : Prop :=
  topic msg = "clock/alarms" ->
  Forall (fun obj => exists t, time_of obj = Some t
                               /\ (4 <= String.length t)%nat)
         (as_JsonArray (json msg)).

Definition inbox_of (ev : Event) : list Message :=
  match ev with
  | EvLoop inbox _ _ => inbox
  | _ => []
  end.

(** The pass of [loop] reads [millis()] no more than [DEBOUNCE] after
    [last]. *)
Definition within_window (last : Z) (ev : Event) : Prop :=
  match ev with
  | EvLoop _ now1 _ => to_uint32 (now1 - last) <= DEBOUNCE
  | _ => True
  end.

Definition subscribed (requests : list Request) (t : string) : Prop :=
  In (Subscribe t) requests.

(** What a decoded message does to the state, whatever the state is. *)
Inductive Effect : Type :=
| Faults
| Keeps
| SetsClock (epoch : Z)
| SetsZone (i : Z)
| SetsAlarms (table : list Alarm).

Definition apply_effect (e : Effect) (st : State) : option State :=
  match e with
  | Faults => None
  | Keeps => Some st
  | SetsClock epoch => Some (setTime epoch st)
  | SetsZone i => Some (set_currentZone i st)
  | SetsAlarms table => Some (set_alarms table st)
  end.

(** * Properties *)

(** ** The firmware on a few inputs *)

Example local_time_cet : local_time 3600 (2 * 3600) = (3, 0, 0).
Proof. reflexivity. Qed.

Example local_time_est_wraps : local_time 3600 (-4 * 3600) = (21, 0, 0).
Proof. reflexivity. Qed.

Example alarm_of_entry_0730 :
  alarm_of_entry (entry "07:30" "CET")
  = Some {| h := 7; m := 30; zone := "CET" |}.
Proof. reflexivity. Qed.

Example alarm_of_entry_four_chars :
  alarm_of_entry (entry "7:30" "CET")
  = Some {| h := 80; m := 208; zone := "CET" |}.
Proof. reflexivity. Qed.

Example alarm_scan_by_zone_name :
  let table := [ {| h := 3; m := 0; zone := "UTC" |};
                 {| h := 3; m := 0; zone := "CET" |} ] in
  alarm_scan "CET" 3 0 table = Some {| h := 3; m := 0; zone := "CET" |}
  /\ alarm_scan "EST" 3 0 table = None.
Proof. split; reflexivity. Qed.

Example ZONE_COUNT_main : ZONE_COUNT zones = 4.
Proof. reflexivity. Qed.

(** ** Machine integers *)

Lemma to_uint8_small (z : Z) : 0 <= z < 256 -> to_uint8 z = z.
Proof. intros Hz. unfold to_uint8. apply Z.mod_small. exact Hz. Qed.

Lemma to_uint8_range (z : Z) : 0 <= to_uint8 z < 256.
Proof. unfold to_uint8. apply Z.mod_pos_bound. lia. Qed.

Lemma to_uint32_small (z : Z) : 0 <= z < 2 ^ 32 -> to_uint32 z = z.
Proof. intros Hz. unfold to_uint32. apply Z.mod_small. exact Hz. Qed.

Lemma to_uint32_range (z : Z) : 0 <= to_uint32 z < 2 ^ 32.
Proof. unfold to_uint32. apply Z.mod_pos_bound. lia. Qed.

Lemma to_long_small (z : Z) : - 2 ^ 31 <= z < 2 ^ 31 -> to_long z = z.
Proof.
  intros Hz. unfold to_long.
  rewrite Z.mod_small; lia.
Qed.

(** ** The local time of day *)

Lemma rem_bounds (x n : Z) : 0 < n -> - n < Z.rem x n < n.
Proof.
  intros Hn. pose proof (Z.rem_bound_abs x n ltac:(lia)) as Hb.
  lia.
Qed.

(** C's [%] truncates towards zero; adding the modulus and reducing again
    lands on the mathematical residue. *)
Lemma rem_shift_mod (x n : Z) : 0 < n -> Z.rem (Z.rem x n + n) n = x mod n.
Proof.
  intros Hn.
  pose proof (rem_bounds x n Hn) as Hb.
  rewrite Z.rem_mod_nonneg by lia.
  pose proof (Z.quot_rem' x n) as Hq.
  assert (Hx : Z.rem x n + n = x + (1 - Z.quot x n) * n) by lia.
  rewrite Hx. apply Z.mod_add. lia.
Qed.

Lemma local_secs_mod (epoch off : Z) :
  0 <= epoch < 2 ^ 32 ->
  - 2 ^ 31 <= off <= 2 ^ 31 - 86400 ->
  local_secs epoch off = (epoch mod 86400 + off) mod 86400.
Proof.
  intros He Ho. unfold local_secs.
  rewrite (Z.rem_mod_nonneg epoch 86400) by lia.
  pose proof (Z.mod_pos_bound epoch 86400 ltac:(lia)) as Ha.
  set (a := epoch mod 86400) in *.
  rewrite (to_long_small (a + off)) by lia.
  pose proof (rem_bounds (a + off) 86400 ltac:(lia)) as Hb.
  rewrite (to_long_small (Z.rem (a + off) 86400 + 86400)) by lia.
  rewrite rem_shift_mod by lia.
  pose proof (Z.mod_pos_bound (a + off) 86400 ltac:(lia)).
  apply to_long_small. lia.
Qed.

Lemma local_time_fields (epoch off : Z) :
  0 <= epoch < 2 ^ 32 ->
  - 2 ^ 31 <= off <= 2 ^ 31 - 86400 ->
  let secs := (epoch mod 86400 + off) mod 86400 in
  local_time epoch off = (secs / 3600, (secs mod 3600) / 60, secs mod 60).
Proof.
  intros He Ho secs. unfold local_time.
  rewrite (local_secs_mod epoch off He Ho). fold secs.
  assert (Hs : 0 <= secs < 86400) by (apply Z.mod_pos_bound; lia).
  rewrite Z.quot_div_nonneg by lia.
  rewrite !Z.rem_mod_nonneg by lia.
  rewrite Z.quot_div_nonneg
    by (try lia; apply Z.mod_pos_bound; lia).
  rewrite !to_uint8_small; try reflexivity.
  - pose proof (Z.mod_pos_bound secs 60 ltac:(lia)). lia.
  - pose proof (Z.mod_pos_bound secs 3600 ltac:(lia)) as Hm.
    split; [apply Z.div_pos; lia |].
    apply Z.div_lt_upper_bound; lia.
  - split; [apply Z.div_pos; lia |].
    apply Z.div_lt_upper_bound; lia.
Qed.

(** C1.  For every epoch the clock can hold ([uint32_t]) and every zone
    offset that the [long] addition of line 157 can take without overflow
    (the configured offsets lie between -12 h and +14 h), the hour, minute
    and second that [loop] computes satisfy
    [hour*3600 + minute*60 + second = ((epoch mod 86400 + o) mod 86400 + 86400) mod 86400],
    with [hour = localSeconds / 3600], [minute = (localSeconds mod 3600) / 60]
    and [second = localSeconds mod 60].  The double reduction reads the same
    with C's truncating [%] as with the mathematical [mod]. *)
Theorem local_time_of_day (epoch o : Z) :
  0 <= epoch < 2 ^ 32 ->
  - 2 ^ 31 <= o <= 2 ^ 31 - 86400 ->
  let localSeconds := ((epoch mod 86400 + o) mod 86400 + 86400) mod 86400 in
  let '(hour, minute, second) := local_time epoch o in
  hour * 3600 + minute * 60 + second = localSeconds
  /\ hour = localSeconds / 3600
  /\ minute = (localSeconds mod 3600) / 60
  /\ second = localSeconds mod 60
  /\ localSeconds
     = Z.rem (Z.rem (Z.rem epoch 86400 + o) 86400 + 86400) 86400.
Proof.
  intros He Ho localSeconds.
  rewrite (local_time_fields epoch o He Ho).
  set (secs := (epoch mod 86400 + o) mod 86400).
  assert (Hs : 0 <= secs < 86400) by (apply Z.mod_pos_bound; lia).
  assert (HL : localSeconds = secs).
  { unfold localSeconds. fold secs.
    replace (secs + 86400) with (secs + 1 * 86400) by lia.
    rewrite Z.mod_add by lia. apply Z.mod_small. exact Hs. }
  rewrite HL.
  repeat split.
  - pose proof (Z.div_mod secs 3600 ltac:(lia)) as H1.
    pose proof (Z.div_mod (secs mod 3600) 60 ltac:(lia)) as H2.
    replace (secs mod 60) with ((secs mod 3600) mod 60).
    + lia.
    + apply Z.mod_mod_divide. exists 60. reflexivity.
  - rewrite rem_shift_mod by lia.
    rewrite Z.rem_mod_nonneg by lia. reflexivity.
Qed.

Lemma local_time_of_day_witness :
  let '(hour, minute, second) := local_time 3600 (2 * 3600) in
  hour * 3600 + minute * 60 + second
  = ((3600 mod 86400 + 2 * 3600) mod 86400 + 86400) mod 86400.
Proof.
  pose proof (local_time_of_day 3600 (2 * 3600) ltac:(lia) ltac:(lia)) as H.
  cbv zeta in H.
  destruct (local_time 3600 (2 * 3600)) as [[hour minute] second].
  exact (proj1 H).
Defined.

(** ** Reading the time string *)

Lemma get_none_iff (s : string) (i : nat) :
  String.get i s = None <-> (String.length s <= i)%nat.
Proof.
  revert i. induction s as [| c s IH]; intros i; simpl.
  - split; [intros _; apply Nat.le_0_l | reflexivity].
  - destruct i as [| i]; simpl.
    + split; [discriminate | intros Hle; inversion Hle].
    + rewrite IH. split; intros Hle; [apply le_n_S | apply le_S_n]; exact Hle.
Qed.

(** The read [t[i]] stays inside the string object exactly up to and
    including the terminator. *)
Lemma char_at_in_bounds (t : option string) (i : nat) :
  char_at t i <> None <->
  exists s, t = Some s /\ (i <= String.length s)%nat.
Proof.
  unfold char_at. destruct t as [s |].
  - destruct (String.get i s) as [c |] eqn:Hget.
    + split.
      * intros _. exists s. split; [reflexivity |].
        destruct (Nat.le_gt_cases i (String.length s)) as [Hle | Hgt];
          [exact Hle |].
        assert (Hn : String.get i s = None)
          by (apply get_none_iff; apply Nat.lt_le_incl; exact Hgt).
        congruence.
      * intros _. discriminate.
    + apply get_none_iff in Hget.
      destruct (Nat.eqb_spec i (String.length s)) as [Heq | Hne].
      * split; [| discriminate].
        intros _. exists s. split; [reflexivity | rewrite Heq; apply Nat.le_refl].
      * split; [intros Hc; exfalso; apply Hc; reflexivity |].
        intros [s' [Hs' Hle]]. injection Hs' as <-. exfalso. apply Hne.
        apply Nat.le_antisymm; assumption.
  - split; [intros Hc; exfalso; apply Hc; reflexivity |].
    intros [s [Hs _]]. discriminate.
Qed.

Lemma char_at_some (s : string) (i : nat) :
  (i <= String.length s)%nat -> exists c, char_at (Some s) i = Some c.
Proof.
  intros Hle.
  destruct (char_at (Some s) i) as [c |] eqn:Hc.
  - exists c. reflexivity.
  - exfalso. revert Hc. apply char_at_in_bounds.
    exists s. split; [reflexivity | exact Hle].
Qed.

(** [alarm_of_entry] succeeds exactly when its four reads are in bounds;
    nothing else is checked. *)
Lemma alarm_of_entry_reads (obj : JsonVariant) :
  alarm_of_entry obj <> None <->
  (forall i, In i [0; 1; 3; 4]%nat -> char_at (time_of obj) i <> None).
Proof.
  unfold alarm_of_entry, time_of.
  set (t := as_cstr (subscript obj "time")).
  split.
  - intros Hsome i Hi.
    destruct (char_at t 0) as [c0 |] eqn:H0; [| exfalso; apply Hsome; reflexivity].
    destruct (char_at t 1) as [c1 |] eqn:H1; [| exfalso; apply Hsome; reflexivity].
    destruct (char_at t 3) as [c3 |] eqn:H3; [| exfalso; apply Hsome; reflexivity].
    destruct (char_at t 4) as [c4 |] eqn:H4; [| exfalso; apply Hsome; reflexivity].
    simpl in Hi.
    destruct Hi as [<- | [<- | [<- | [<- | []]]]]; congruence.
  - intros Hall.
    destruct (char_at t 0) as [c0 |] eqn:H0;
      [| exfalso; apply (Hall 0%nat); [simpl; tauto | exact H0]].
    destruct (char_at t 1) as [c1 |] eqn:H1;
      [| exfalso; apply (Hall 1%nat); [simpl; tauto | exact H1]].
    destruct (char_at t 3) as [c3 |] eqn:H3;
      [| exfalso; apply (Hall 3%nat); [simpl; tauto | exact H3]].
    destruct (char_at t 4) as [c4 |] eqn:H4;
      [| exfalso; apply (Hall 4%nat); [simpl; tauto | exact H4]].
    simpl. discriminate.
Qed.

Lemma alarm_of_entry_long_enough (obj : JsonVariant) (t : string) :
  time_of obj = Some t ->
  (4 <= String.length t)%nat ->
  exists a, alarm_of_entry obj = Some a.
Proof.
  intros Ht Hlen.
  destruct (alarm_of_entry obj) as [a |] eqn:Ha.
  - exists a. reflexivity.
  - exfalso. revert Ha. apply alarm_of_entry_reads.
    intros i Hi. apply char_at_in_bounds. exists t.
    split; [exact Ht |].
    simpl in Hi. destruct Hi as [<- | [<- | [<- | [<- | []]]]]; lia.
Qed.

Lemma char_code_digit (d : Z) : 0 <= d <= 9 -> char_code (digit d) = 48 + d.
Proof.
  intros Hd. unfold char_code, digit.
  rewrite N_ascii_embedding by lia.
  lia.
Qed.

(** A two-digit hour and a two-digit minute are stored as they are written,
    whether or not they denote a time of day. *)
Lemma alarm_of_time_text (HH MM : Z) (z : string) :
  0 <= HH < 100 ->
  0 <= MM < 100 ->
  alarm_of_entry (entry (time_text HH MM) z)
  = Some {| h := HH; m := MM; zone := z |}.
Proof.
  intros HH_range MM_range.
  unfold alarm_of_entry, entry, time_text. cbn.
  assert (Hq : forall n, 0 <= n < 100 -> 0 <= n / 10 <= 9 /\ 0 <= n mod 10 <= 9).
  { intros n Hn. pose proof (Z.div_mod n 10 ltac:(lia)).
    pose proof (Z.mod_pos_bound n 10 ltac:(lia)). lia. }
  destruct (Hq HH HH_range) as [Hh1 Hh0].
  destruct (Hq MM MM_range) as [Hm1 Hm0].
  rewrite !char_code_digit by assumption.
  f_equal. f_equal.
  - rewrite to_uint8_small; pose proof (Z.div_mod HH 10 ltac:(lia)); lia.
  - rewrite to_uint8_small; pose proof (Z.div_mod MM 10 ltac:(lia)); lia.
Qed.

(** ** The message handler, topic by topic *)

Lemma mqttCallback_sync (zones : list TZ) (msg : Message) (st : State) :
  topic msg = "clock/sync" ->
  mqttCallback zones msg st
  = Some (setTime (as_uint32 (scalar msg) (subscript (json msg) "epoch")) st).
Proof. intros Ht. unfold mqttCallback. rewrite Ht. reflexivity. Qed.

Lemma mqttCallback_zone (zones : list TZ) (msg : Message) (st : State) :
  topic msg = "clock/zone" ->
  mqttCallback zones msg st
  = (i <- zone_loop zones (payload msg) (Z.to_nat (ZONE_COUNT zones)) 0
            (currentZone st) ;;
     Some (set_currentZone i st)).
Proof. intros Ht. unfold mqttCallback. rewrite Ht. reflexivity. Qed.

Lemma mqttCallback_alarms (zones : list TZ) (msg : Message) (st : State) :
  topic msg = "clock/alarms" ->
  mqttCallback zones msg st
  = (table <- alarms_loop (as_JsonArray (json msg)) [] ;;
     Some (set_alarms table st)).
Proof. intros Ht. unfold mqttCallback. rewrite Ht. reflexivity. Qed.

Lemma mqttCallback_other (zones : list TZ) (msg : Message) (st : State) :
  topic msg <> "clock/sync" ->
  topic msg <> "clock/zone" ->
  topic msg <> "clock/alarms" ->
  mqttCallback zones msg st = Some st.
Proof.
  intros H1 H2 H3. unfold mqttCallback.
  apply String.eqb_neq in H1, H2, H3.
  rewrite H1, H2, H3. reflexivity.
Qed.

(** ** Filling the alarm table *)

Lemma alarms_loop_all (elems : list JsonVariant) (table : list Alarm) :
  Forall (fun obj => alarm_of_entry obj <> None) elems ->
  exists added,
    alarms_loop elems table = Some (table ++ added)
    /\ Forall2 (fun obj a => alarm_of_entry obj = Some a) elems added.
Proof.
  intros Hall. revert table.
  induction Hall as [| obj rest Hobj _ IH]; intros table.
  - exists []. split; [simpl; rewrite app_nil_r; reflexivity | constructor].
  - destruct (alarm_of_entry obj) as [a |] eqn:Ha; [| congruence].
    destruct (IH (table ++ [a])) as [added [Hloop Hrel]].
    exists (a :: added). split.
    + simpl. rewrite Ha. simpl. rewrite Hloop, <- app_assoc. reflexivity.
    + constructor; assumption.
Qed.

Lemma alarms_loop_fault (elems : list JsonVariant) (table : list Alarm) :
  Exists (fun obj => alarm_of_entry obj = None) elems ->
  alarms_loop elems table = None.
Proof.
  intros Hex. revert table.
  induction Hex as [obj rest Hobj | obj rest _ IH]; intros table; simpl.
  - rewrite Hobj. reflexivity.
  - destruct (alarm_of_entry obj) as [a |]; simpl; [apply IH | reflexivity].
Qed.

Lemma Forall2_nth_error_l {A B : Type} (R : A -> B -> Prop)
      (l : list A) (l' : list B) (k : nat) (x : A) :
  Forall2 R l l' -> nth_error l k = Some x ->
  exists y, nth_error l' k = Some y /\ R x y.
Proof.
  intros Hrel. revert k.
  induction Hrel as [| a b l l' Hab _ IH]; intros k Hk.
  - destruct k; discriminate.
  - destruct k as [| k]; simpl in *.
    + injection Hk as <-. exists b. split; [reflexivity | exact Hab].
    + apply IH. exact Hk.
Qed.

(** C2, as the code has it.  The handler validates nothing: when every
    entry of the batch carries a time string of at least four characters
    (so that the four reads stay inside it), no entry is dropped.  The table
    afterwards holds one alarm per entry, in batch order; an entry written
    ["HH:MM"] with two-digit numbers is stored with hour [HH] and minute
    [MM], also when [HH > 23] or [MM > 59]. *)
Theorem alarm_sync_keeps_every_entry
        (zones : list TZ) (text : string) (batch : list JsonVariant)
        (st : State) :
  Forall (fun obj => exists t, time_of obj = Some t
                               /\ (4 <= String.length t)%nat) batch ->
  exists table,
    mqttCallback zones (alarm_message text (JArray batch)) st
    = Some (set_alarms table st)
    /\ Forall2 (fun obj a => alarm_of_entry obj = Some a) batch table
    /\ List.length table = List.length batch
    /\ (forall k HH MM z,
          0 <= HH < 100 -> 0 <= MM < 100 ->
          nth_error batch k = Some (entry (time_text HH MM) z) ->
          nth_error table k = Some {| h := HH; m := MM; zone := z |}).
Proof.
  intros Hbatch.
  assert (Hreads : Forall (fun obj => alarm_of_entry obj <> None) batch).
  { eapply Forall_impl; [| exact Hbatch].
    intros obj [t [Ht Hlen]] Hnone.
    destruct (alarm_of_entry_long_enough obj t Ht Hlen) as [a Ha].
    congruence. }
  destruct (alarms_loop_all batch [] Hreads) as [table [Hloop Hrel]].
  exists table. repeat split.
  - rewrite mqttCallback_alarms by reflexivity.
    cbn [json alarm_message as_JsonArray]. rewrite Hloop. reflexivity.
  - exact Hrel.
  - symmetry. eapply Forall2_length. exact Hrel.
  - intros k HH MM z HHr MMr Hk.
    destruct (Forall2_nth_error_l _ _ _ _ _ Hrel Hk) as [a [Ha Hpa]].
    rewrite (alarm_of_time_text HH MM z HHr MMr) in Hpa.
    congruence.
Qed.

Lemma alarm_sync_keeps_every_entry_witness :
  exists table,
    mqttCallback zones
      (alarm_message "" (JArray [entry "07:30" "UTC"; entry "25:61" "UTC"]))
      (initial 0)
    = Some (set_alarms table (initial 0))
    /\ List.length table = 2%nat.
Proof.
  destruct (alarm_sync_keeps_every_entry zones ""
              [entry "07:30" "UTC"; entry "25:61" "UTC"] (initial 0))
    as [table [Hcb [_ [Hlen _]]]].
  - repeat constructor.
    + exists "07:30". split; [reflexivity | simpl; lia].
    + exists "25:61". split; [reflexivity | simpl; lia].
  - exists table. split; [exact Hcb | exact Hlen].
Defined.

(** C2 fails as the specification words it: a batch of one well-formed and
    one out-of-range entry leaves both in the table. *)
Lemma out_of_range_entry_is_stored :
  exists st',
    mqttCallback zones
      (alarm_message "" (JArray [entry "07:30" "UTC"; entry "25:61" "UTC"]))
      (initial 0) = Some st'
    /\ alarms st' = [ {| h := 7; m := 30; zone := "UTC" |};
                      {| h := 25; m := 61; zone := "UTC" |} ]
    /\ alarms st' <> [ {| h := 7; m := 30; zone := "UTC" |} ].
Proof.
  eexists. split; [reflexivity |].
  split; [reflexivity | discriminate].
Qed.

(** C3, as the code has it.  The table is cleared before the payload is
    decoded, and the result of the decoder is not looked at: an alarm-sync
    message whose document holds no array leaves the table empty, whatever
    it held before; the clock, the zone and the button state are kept. *)
Theorem undecodable_alarm_sync_clears_table
        (zones : list TZ) (msg : Message) (st : State) :
  topic msg = "clock/alarms" ->
  is_array (json msg) = false ->
  mqttCallback zones msg st = Some (set_alarms [] st).
Proof.
  intros Ht Harr.
  rewrite mqttCallback_alarms by exact Ht.
  destruct (json msg); try discriminate; reflexivity.
Qed.

Lemma undecodable_alarm_sync_clears_table_witness :
  mqttCallback zones (alarm_message "]not json[" JNull)
    (set_alarms [ {| h := 7; m := 30; zone := "UTC" |} ] (initial 0))
  = Some (initial 0).
Proof.
  exact (undecodable_alarm_sync_clears_table zones
           (alarm_message "]not json[" JNull)
           (set_alarms [ {| h := 7; m := 30; zone := "UTC" |} ] (initial 0))
           eq_refl eq_refl).
Defined.

(** C3 fails as the specification words it: the table that held one alarm
    is empty after a payload that does not decode. *)
Lemma undecodable_alarm_sync_loses_table :
  let before := set_alarms [ {| h := 7; m := 30; zone := "UTC" |} ] (initial 0) in
  exists after,
    mqttCallback zones (alarm_message "]not json[" JNull) before = Some after
    /\ alarms after = []
    /\ alarms after <> alarms before.
Proof.
  eexists. split; [reflexivity |].
  split; [reflexivity | discriminate].
Qed.

(** C4, as the code has it.  The epoch member is converted without a check
    and the result is handed to [setTime].  A time-sync message whose
    payload does not decode, or whose document has no ["epoch"] member, or
    whose member is null, an array, an object or an integer outside the
    [uint32_t] range, sets the clock to 0; when the member is a text, a
    boolean or a fractional number the clock is set to the [uint32_t] that
    the library converts it to.  In every case the handler returns normally
    and keeps the zone, the button state and the alarms. *)
Theorem undecodable_time_sync_resets_clock
        (zones : list TZ) (msg : Message) (st : State) :
  topic msg = "clock/sync" ->
  (epoch_unparsable (json msg) = true ->
   mqttCallback zones msg st
   = Some (mkState (currentZone st) (buttonPressed st) (lastDebounceTime st)
                   (alarms st) 0))
  /\ (epoch_scalar (json msg) = true ->
      mqttCallback zones msg st
      = Some (mkState (currentZone st) (buttonPressed st)
                      (lastDebounceTime st) (alarms st)
                      (to_uint32 (scalar msg)))).
Proof.
  intros Ht.
  rewrite mqttCallback_sync by exact Ht.
  unfold epoch_unparsable, epoch_scalar, setTime.
  destruct (subscript (json msg) "epoch") as [| b | z | m e | s | elems | members];
    (split; intros Hshape; try discriminate; try reflexivity).
  cbn [as_uint32]. unfold fits_uint32.
  apply orb_true_iff in Hshape.
  destruct Hshape as [Hneg | Hbig].
  - apply Z.ltb_lt in Hneg.
    destruct (Z.leb_spec 0 z); [lia | reflexivity].
  - apply Z.leb_le in Hbig.
    destruct (Z.ltb_spec z (2 ^ 32)); [lia |].
    rewrite andb_false_r. reflexivity.
Qed.

Lemma undecodable_time_sync_resets_clock_witness :
  mqttCallback zones
    {| topic := "clock/sync"; payload := "{epoch"; json := JNull; scalar := 0 |}
    (initial 1625074800)
  = Some (mkState 2 false 0 [] 0).
Proof.
  exact (proj1 (undecodable_time_sync_resets_clock zones
                  {| topic := "clock/sync"; payload := "{epoch";
                     json := JNull; scalar := 0 |}
                  (initial 1625074800) eq_refl) eq_refl).
Defined.

(** C4 fails as the specification words it: the epoch that the clock held
    is gone after a payload that does not decode. *)
Lemma undecodable_time_sync_loses_epoch :
  let before := initial 1625074800 in
  exists after,
    mqttCallback zones
      {| topic := "clock/sync"; payload := "{epoch"; json := JNull; scalar := 0 |}
      before = Some after
    /\ getEpoch before = 1625074800
    /\ getEpoch after = 0.
Proof.
  eexists. split; [reflexivity |].
  split; reflexivity.
Qed.

(** A well-formed time-sync message sets the clock to its epoch. *)
Lemma time_sync_sets_clock
      (zones : list TZ) (msg : Message) (st : State) (epoch : Z) :
  topic msg = "clock/sync" ->
  subscript (json msg) "epoch" = JInteger epoch ->
  0 <= epoch < 2 ^ 32 ->
  mqttCallback zones msg st = Some (setTime epoch st).
Proof.
  intros Ht Hdoc Hrange.
  rewrite mqttCallback_sync by exact Ht.
  rewrite Hdoc. cbn [as_uint32]. unfold fits_uint32.
  destruct (Z.leb_spec 0 epoch); [| lia].
  destruct (Z.ltb_spec epoch (2 ^ 32)); [reflexivity | lia].
Qed.

(** C10.  The time string is read at positions 0, 1, 3 and 4 and nothing
    guards the reads.  When every entry of the batch carries a time string
    of at least five characters, every read is in bounds and the handler
    completes.  Outside that precondition some reads leave the object: an
    entry without a time member makes the very first read go through the
    null pointer, and the three-character string ["7:3"] makes the read at
    position 4 pass the terminator. *)
Theorem alarm_time_reads_unguarded :
  (forall (zones : list TZ) (text : string) (batch : list JsonVariant)
          (st : State),
      Forall (fun obj => exists t, time_of obj = Some t
                                   /\ (5 <= String.length t)%nat) batch ->
      Forall (fun obj => forall i, In i [0; 1; 3; 4]%nat ->
                                   char_at (time_of obj) i <> None) batch
      /\ mqttCallback zones (alarm_message text (JArray batch)) st <> None)
  /\ (let obj := JObject [("zone", JString "UTC")] in
      time_of obj = None
      /\ char_at (time_of obj) 0 = None
      /\ forall zones text st,
           mqttCallback zones (alarm_message text (JArray [obj])) st = None)
  /\ (let obj := entry "7:3" "UTC" in
      time_of obj = Some "7:3"
      /\ char_at (time_of obj) 3 = Some 0
      /\ char_at (time_of obj) 4 = None
      /\ forall zones text st,
           mqttCallback zones (alarm_message text (JArray [obj])) st = None).
Proof.
  split; [| split].
  - intros zones text batch st Hbatch.
    assert (Hreads : Forall (fun obj => forall i, In i [0; 1; 3; 4]%nat ->
                               char_at (time_of obj) i <> None) batch).
    { eapply Forall_impl; [| exact Hbatch].
      intros obj [t [Ht Hlen]] i Hi.
      apply char_at_in_bounds. exists t. split; [exact Ht |].
      simpl in Hi. destruct Hi as [<- | [<- | [<- | [<- | []]]]]; lia. }
    split; [exact Hreads |].
    assert (Hsome : Forall (fun obj => alarm_of_entry obj <> None) batch).
    { eapply Forall_impl; [| exact Hreads].
      intros obj Hobj. apply alarm_of_entry_reads. exact Hobj. }
    destruct (alarms_loop_all batch [] Hsome) as [table [Hloop _]].
    rewrite mqttCallback_alarms by reflexivity.
    cbn [json alarm_message as_JsonArray]. rewrite Hloop. discriminate.
  - cbv zeta. split; [reflexivity |]. split; [reflexivity |].
    intros zones text st. reflexivity.
  - cbv zeta. split; [reflexivity |]. split; [reflexivity |].
    split; [reflexivity |].
    intros zones text st. reflexivity.
Qed.

Lemma alarm_time_reads_unguarded_witness :
  mqttCallback zones
    (alarm_message "" (JArray [entry "07:30" "UTC"; entry "23:59" "CET"]))
    (initial 0) <> None.
Proof.
  apply (proj1 alarm_time_reads_unguarded zones ""
           [entry "07:30" "UTC"; entry "23:59" "CET"] (initial 0)).
  repeat constructor.
  - exists "07:30". split; [reflexivity | simpl; lia].
  - exists "23:59". split; [reflexivity | simpl; lia].
Defined.

(** ** The zone table and the selected index *)

Section ZoneTable.

Variable zones : list TZ.

Lemma ZONE_COUNT_bounds :
  0 <= ZONE_COUNT zones <= Z.of_nat (List.length zones)
  /\ ZONE_COUNT zones < 256.
Proof.
  unfold ZONE_COUNT, to_uint8.
  pose proof (Z.mod_pos_bound (Z.of_nat (List.length zones)) 256 ltac:(lia)).
  pose proof (Z.mod_le (Z.of_nat (List.length zones)) 256 ltac:(lia) ltac:(lia)).
  lia.
Qed.

Lemma ZONE_COUNT_length :
  (List.length zones <= 255)%nat ->
  ZONE_COUNT zones = Z.of_nat (List.length zones).
Proof. intros Hlen. unfold ZONE_COUNT. apply to_uint8_small. lia. Qed.

Lemma zone_at_nth (k : nat) : zone_at zones (Z.of_nat k) = nth_error zones k.
Proof.
  unfold zone_at. destruct (Z.ltb_spec (Z.of_nat k) 0); [lia |].
  rewrite Nat2Z.id. reflexivity.
Qed.

Lemma zone_at_some (i : Z) :
  0 <= i < ZONE_COUNT zones -> exists z, zone_at zones i = Some z.
Proof.
  intros Hi. pose proof ZONE_COUNT_bounds as Hc.
  rewrite <- (Z2Nat.id i) by lia. rewrite zone_at_nth.
  destruct (nth_error zones (Z.to_nat i)) as [z |] eqn:Hz.
  - exists z. reflexivity.
  - apply nth_error_None in Hz. lia.
Qed.

Lemma zone_at_in (i : Z) (z : TZ) : zone_at zones i = Some z -> In z zones.
Proof.
  unfold zone_at. destruct (i <? 0); [discriminate |].
  apply nth_error_In.
Qed.

(** The scan of the zone names neither leaves the table nor returns an index
    outside the part it has visited. *)
Lemma zone_loop_range (msg : string) (n : nat) (i cz r : Z) :
  0 <= i ->
  i + Z.of_nat n <= ZONE_COUNT zones ->
  zone_loop zones msg n i cz = Some r ->
  r = cz \/ i <= r < i + Z.of_nat n.
Proof.
  revert i. induction n as [| n IH]; intros i Hi Hend Hloop; simpl in Hloop.
  - left. congruence.
  - destruct (zone_at zones i) as [z |]; [| discriminate]. simpl in Hloop.
    destruct (String_equals msg (name z)).
    + right. injection Hloop as <-. lia.
    + pose proof ZONE_COUNT_bounds.
      rewrite to_uint8_small in Hloop by lia.
      destruct (IH (i + 1) ltac:(lia) ltac:(lia) Hloop) as [-> | Hr];
        [left; reflexivity | right; lia].
Qed.

Lemma String_equals_iff (s cstr : string) :
  String_equals s cstr = true <-> c_str s = c_str cstr.
Proof. unfold String_equals. apply String.eqb_eq. Qed.

Lemma zone_loop_unknown (msg : string) (n : nat) (i cz : Z) :
  ~ In (c_str msg) (c_names zones) ->
  0 <= i ->
  i + Z.of_nat n <= ZONE_COUNT zones ->
  zone_loop zones msg n i cz = Some cz.
Proof.
  intros Hunknown. revert i.
  induction n as [| n IH]; intros i Hi Hend; simpl; [reflexivity |].
  pose proof ZONE_COUNT_bounds.
  destruct (zone_at_some i ltac:(lia)) as [z Hz]. rewrite Hz. simpl.
  destruct (String_equals msg (name z)) eqn:Heq.
  - exfalso. apply Hunknown. apply String_equals_iff in Heq. rewrite Heq.
    unfold c_names. apply (in_map (fun z => c_str (name z))).
    eapply zone_at_in. exact Hz.
  - rewrite to_uint8_small by lia. apply IH; lia.
Qed.

Lemma zone_loop_first (msg : string) (n : nat) (i cz k : Z) (z : TZ) :
  0 <= i <= k ->
  k < i + Z.of_nat n ->
  i + Z.of_nat n <= ZONE_COUNT zones ->
  zone_at zones k = Some z ->
  c_str msg = c_str (name z) ->
  (forall j z', i <= j < k -> zone_at zones j = Some z' ->
                c_str msg <> c_str (name z')) ->
  zone_loop zones msg n i cz = Some k.
Proof.
  intros Hik Hkn Hend Hz Hname Hfirst. revert i Hik Hkn Hend Hfirst.
  induction n as [| n IH]; intros i Hik Hkn Hend Hfirst; [lia |].
  simpl. pose proof ZONE_COUNT_bounds.
  destruct (zone_at_some i ltac:(lia)) as [zi Hzi]. rewrite Hzi. simpl.
  destruct (String_equals msg (name zi)) eqn:Heq.
  - apply String_equals_iff in Heq.
    destruct (Z.eq_dec i k) as [-> | Hneq]; [reflexivity |].
    exfalso. apply (Hfirst i zi); [lia | exact Hzi | exact Heq].
  - assert (Hlt : i < k).
    { destruct (Z.eq_dec i k) as [-> | Hneq]; [| lia].
      rewrite Hz in Hzi. injection Hzi as <-.
      apply String_equals_iff in Hname. congruence. }
    rewrite to_uint8_small by lia.
    apply IH; try lia.
    intros j z' Hj. apply Hfirst. lia.
Qed.

(** With names that [strcmp] tells apart, the scan stops at the zone whose
    name the payload carries. *)
Lemma zone_loop_selects (msg : string) (k : nat) (z : TZ) (cz : Z) :
  NoDup (c_names zones) ->
  (List.length zones <= 255)%nat ->
  nth_error zones k = Some z ->
  c_str msg = c_str (name z) ->
  zone_loop zones msg (Z.to_nat (ZONE_COUNT zones)) 0 cz = Some (Z.of_nat k).
Proof.
  intros Hnodup Hlen Hz Hname.
  assert (Hk : (k < List.length zones)%nat)
    by (apply nth_error_Some; congruence).
  pose proof (ZONE_COUNT_length Hlen) as Hcount.
  apply (zone_loop_first msg _ 0 cz (Z.of_nat k) z);
    try lia; try assumption.
  - rewrite zone_at_nth. exact Hz.
  - intros j z' Hj Hz' Hsame.
    rewrite <- (Z2Nat.id j) in Hz' by lia. rewrite zone_at_nth in Hz'.
    assert (Heq : Z.to_nat j = k).
    { apply (proj1 (NoDup_nth_error (c_names zones)) Hnodup).
      - unfold c_names. rewrite length_map. apply nth_error_Some. congruence.
      - unfold c_names. rewrite !nth_error_map, Hz', Hz. simpl. congruence. }
    lia.
Qed.

Lemma set_currentZone_same (st : State) :
  set_currentZone (currentZone st) st = st.
Proof. destruct st. reflexivity. Qed.

Lemma next_zone_mod (cz : Z) :
  0 <= cz < ZONE_COUNT zones ->
  next_zone zones cz = (cz + 1) mod ZONE_COUNT zones.
Proof.
  intros Hcz. unfold next_zone. pose proof ZONE_COUNT_bounds.
  rewrite Z.rem_mod_nonneg by lia.
  pose proof (Z.mod_pos_bound (cz + 1) (ZONE_COUNT zones) ltac:(lia)).
  apply to_uint8_small. lia.
Qed.

Lemma next_zone_range (cz : Z) :
  0 <= cz < ZONE_COUNT zones ->
  0 <= next_zone zones cz < ZONE_COUNT zones.
Proof.
  intros Hcz. rewrite next_zone_mod by exact Hcz.
  apply Z.mod_pos_bound. lia.
Qed.

(** Under the invariant the body of the button block runs to its end. *)
Lemma advance_zone_runs (now2 : Z) (st : State) :
  zone_in_range zones st ->
  exists z,
    zone_at zones (next_zone zones (currentZone st)) = Some z
    /\ advance_zone zones now2 st
       = Some (mkState (next_zone zones (currentZone st)) false
                       (to_uint32 now2) (alarms st) (rtc st),
               [Publish "clock/zone" (name z)]).
Proof.
  intros Hinv. unfold zone_in_range in Hinv.
  destruct (zone_at_some _ (next_zone_range _ Hinv)) as [z Hz].
  exists z. split; [exact Hz |].
  unfold advance_zone.
  destruct (Z.eqb_spec (ZONE_COUNT zones) 0) as [H0 | _]; [lia |].
  rewrite Hz. reflexivity.
Qed.

End ZoneTable.

(** C7, as the code has it.  Line 75 compares with [strcmp]: of the payload
    only the bytes before its first NUL take part.  A zone-change message
    whose payload, read that way, is not a name of the zone table changes
    nothing and raises nothing: the handler returns the state it was given.
    When the payload, read that way, is the name of a zone (names being
    unique and the table within the range of the [uint8_t] counter), the
    selected index becomes the index of that zone and nothing else
    changes. *)
Theorem zone_change_message (zones : list TZ) (msg : Message) (st : State) :
  topic msg = "clock/zone" ->
  (~ In (c_str (payload msg)) (c_names zones) ->
   mqttCallback zones msg st = Some st)
  /\ (forall (k : nat) (z : TZ),
        NoDup (c_names zones) ->
        (List.length zones <= 255)%nat ->
        nth_error zones k = Some z ->
        c_str (payload msg) = c_str (name z) ->
        mqttCallback zones msg st
        = Some (mkState (Z.of_nat k) (buttonPressed st) (lastDebounceTime st)
                        (alarms st) (rtc st))).
Proof.
  intros Ht. rewrite mqttCallback_zone by exact Ht.
  pose proof (ZONE_COUNT_bounds zones) as Hc.
  split.
  - intros Hunknown.
    rewrite zone_loop_unknown; try assumption; try lia.
    simpl. rewrite set_currentZone_same. reflexivity.
  - intros k z Hnodup Hlen Hz Hname.
    rewrite (zone_loop_selects zones (payload msg) k z (currentZone st)
               Hnodup Hlen Hz Hname).
    reflexivity.
Qed.

Lemma zones_names_unique : NoDup (c_names zones).
Proof.
  unfold c_names. simpl. repeat constructor; simpl; intuition discriminate.
Qed.

Lemma zone_change_message_witness :
  mqttCallback zones
    {| topic := "clock/zone"; payload := "Mars"; json := JNull; scalar := 0 |}
    (initial 0)
  = Some (initial 0)
  /\ mqttCallback zones
       {| topic := "clock/zone"; payload := "EST"; json := JNull; scalar := 0 |}
       (initial 0)
     = Some (mkState 3 false 0 [] 0).
Proof.
  split.
  - apply (proj1 (zone_change_message zones
              {| topic := "clock/zone"; payload := "Mars"; json := JNull;
                 scalar := 0 |}
              (initial 0) eq_refl)).
    unfold c_names. simpl.
    intros [H | [H | [H | [H | []]]]]; discriminate.
  - apply (proj2 (zone_change_message zones
              {| topic := "clock/zone"; payload := "EST"; json := JNull;
                 scalar := 0 |}
              (initial 0) eq_refl) 3%nat {| offset := -4 * 3600; name := "EST" |}).
    + exact zones_names_unique.
    + simpl. lia.
    + reflexivity.
    + reflexivity.
Defined.

(** C7 fails as the specification words it: the payload made of the bytes
    [U], [T], [C] and a NUL is not the name of a zone of the table, and yet
    the handler selects the zone [UTC]. *)
Lemma zone_name_before_NUL_selects_zone :
  let bytes := String "U" (String "T" (String "C" (String zero EmptyString))) in
  let msg := {| topic := "clock/zone"; payload := bytes; json := JNull;
                scalar := 0 |} in
  ~ In (payload msg) (map name zones)
  /\ currentZone (initial 0) = 2
  /\ mqttCallback zones msg (initial 0) = Some (mkState 0 false 0 [] 0).
Proof.
  cbv zeta. split; [| split; reflexivity].
  simpl. intros [H | [H | [H | [H | []]]]]; discriminate.
Qed.

(** ** The invariant of the selected index *)

Section Invariant.

Variable zones : list TZ.

Lemma mqttCallback_zone_in_range (msg : Message) (st st' : State) :
  zone_in_range zones st ->
  mqttCallback zones msg st = Some st' ->
  zone_in_range zones st'.
Proof.
  unfold zone_in_range. intros Hinv Hcb. unfold mqttCallback in Hcb.
  destruct (String.eqb (topic msg) "clock/sync").
  { injection Hcb as <-. exact Hinv. }
  destruct (String.eqb (topic msg) "clock/zone").
  { destruct (zone_loop zones (payload msg) (Z.to_nat (ZONE_COUNT zones)) 0
                (currentZone st)) as [r |] eqn:Hloop; [| discriminate].
    simpl in Hcb. injection Hcb as <-. simpl.
    apply zone_loop_range in Hloop; lia. }
  destruct (String.eqb (topic msg) "clock/alarms").
  { destruct (alarms_loop (as_JsonArray (json msg)) (alarms (set_alarms [] st)))
      as [table |]; [| discriminate].
    simpl in Hcb. injection Hcb as <-. exact Hinv. }
  injection Hcb as <-. exact Hinv.
Qed.

Lemma mqtt_loop_zone_in_range (inbox : list Message) (st st' : State) :
  zone_in_range zones st ->
  mqtt_loop zones inbox st = Some st' ->
  zone_in_range zones st'.
Proof.
  revert st. induction inbox as [| msg rest IH]; intros st Hinv Hrun;
    simpl in Hrun.
  - injection Hrun as <-. exact Hinv.
  - destruct (mqttCallback zones msg st) as [st1 |] eqn:Hcb; [| discriminate].
    simpl in Hrun. apply (IH st1); [| exact Hrun].
    eapply mqttCallback_zone_in_range; eassumption.
Qed.

Lemma button_block_zone_in_range
      (now1 now2 : Z) (st st' : State) (out : list Output) :
  zone_in_range zones st ->
  button_block zones now1 now2 st = Some (st', out) ->
  zone_in_range zones st'.
Proof.
  intros Hinv Hblock. unfold button_block in Hblock.
  destruct (buttonPressed st
            && (DEBOUNCE <? to_uint32 (now1 - lastDebounceTime st))).
  - destruct (advance_zone_runs zones now2 st Hinv) as [z [_ Hadv]].
    rewrite Hadv in Hblock. injection Hblock as <- _.
    unfold zone_in_range. simpl. apply next_zone_range. exact Hinv.
  - injection Hblock as <- _. exact Hinv.
Qed.

Lemma loop_zone_in_range
      (inbox : list Message) (now1 now2 : Z) (st st' : State)
      (out : list Output) :
  zone_in_range zones st ->
  loop zones inbox now1 now2 st = Some (st', out) ->
  zone_in_range zones st'.
Proof.
  intros Hinv Hloop. unfold loop in Hloop.
  destruct (mqtt_loop zones inbox st) as [st1 |] eqn:Hmq; [| discriminate].
  simpl in Hloop.
  destruct (button_block zones now1 now2 st1) as [[st2 published] |] eqn:Hbb;
    [| discriminate].
  simpl in Hloop.
  destruct (zone_at zones (currentZone st2)) as [z |]; [| discriminate].
  simpl in Hloop.
  destruct (local_time (getEpoch st2) (offset z)) as [[Dh Dm] Ds].
  injection Hloop as <- _.
  eapply button_block_zone_in_range; [| exact Hbb].
  eapply mqtt_loop_zone_in_range; eassumption.
Qed.

Lemma step_zone_in_range (ev : Event) (st st' : State) (out : list Output) :
  zone_in_range zones st ->
  step zones ev st = Some (st', out) ->
  zone_in_range zones st'.
Proof.
  intros Hinv Hstep. destruct ev as [t | d | inbox now1 now2]; simpl in Hstep.
  - injection Hstep as <- _. exact Hinv.
  - injection Hstep as <- _. exact Hinv.
  - eapply loop_zone_in_range; eassumption.
Qed.

Lemma run_zone_in_range (evs : list Event) (st st' : State) (out : list Output) :
  zone_in_range zones st ->
  run zones evs st = Some (st', out) ->
  zone_in_range zones st'.
Proof.
  revert st out. induction evs as [| ev rest IH]; intros st out Hinv Hrun;
    simpl in Hrun.
  - injection Hrun as <- _. exact Hinv.
  - destruct (step zones ev st) as [[st1 out1] |] eqn:Hstep; [| discriminate].
    simpl in Hrun.
    destruct (run zones rest st1) as [[st2 out2] |] eqn:Hrest; [| discriminate].
    simpl in Hrun. injection Hrun as <- _.
    apply (IH st1 out2); [| exact Hrest].
    eapply step_zone_in_range; eassumption.
Qed.

End Invariant.

(** C6.  With a zone table that has the initial index 2 in range, the
    selected index satisfies [0 <= currentZone < ZONE_COUNT] after [setup],
    keeps doing so across the message handler (zone-change messages
    included), across the button block and across every event, and hence
    does so in every reachable state. *)
Theorem zone_index_invariant (zones : list TZ) :
  2 < ZONE_COUNT zones ->
  (forall boot, zone_in_range zones (initial boot))
  /\ (forall msg st st',
        zone_in_range zones st ->
        mqttCallback zones msg st = Some st' ->
        zone_in_range zones st')
  /\ (forall now1 now2 st st' out,
        zone_in_range zones st ->
        button_block zones now1 now2 st = Some (st', out) ->
        zone_in_range zones st')
  /\ (forall ev st st' out,
        zone_in_range zones st ->
        step zones ev st = Some (st', out) ->
        zone_in_range zones st')
  /\ (forall st, reachable zones st -> zone_in_range zones st).
Proof.
  intros Hcount.
  assert (Hinit : forall boot, zone_in_range zones (initial boot)).
  { intros boot. unfold zone_in_range. simpl. lia. }
  split; [exact Hinit |].
  split; [apply mqttCallback_zone_in_range |].
  split; [apply button_block_zone_in_range |].
  split; [apply step_zone_in_range |].
  intros st [boot [evs [out Hrun]]].
  eapply run_zone_in_range; [apply Hinit | exact Hrun].
Qed.

Lemma zone_index_invariant_witness :
  2 < ZONE_COUNT zones
  /\ zone_in_range zones (mkState 3 false 1010 [] 0).
Proof.
  assert (Hcount : 2 < ZONE_COUNT zones) by (vm_compute; reflexivity).
  split; [exact Hcount |].
  apply (proj2 (proj2 (proj2 (proj2 (zone_index_invariant zones Hcount))))).
  exists 0, [EvButton 1000; EvLoop [] 1010 1010].
  eexists. vm_compute. reflexivity.
Defined.

(** ** Cycling through the zones *)

Lemma advances_index (zones : list TZ) (nows : list Z) (st : State) :
  zone_in_range zones st ->
  exists st',
    advances zones nows st = Some st'
    /\ currentZone st'
       = (currentZone st + Z.of_nat (List.length nows)) mod ZONE_COUNT zones.
Proof.
  revert st. induction nows as [| now rest IH]; intros st Hinv.
  - exists st. split; [reflexivity |].
    simpl. rewrite Z.add_0_r. symmetry. apply Z.mod_small. exact Hinv.
  - destruct (advance_zone_runs zones now st Hinv) as [z [_ Hadv]].
    set (st1 := mkState (next_zone zones (currentZone st)) false
                        (to_uint32 now) (alarms st) (rtc st)) in *.
    assert (Hinv1 : zone_in_range zones st1)
      by (apply next_zone_range; exact Hinv).
    destruct (IH st1 Hinv1) as [st' [Hrest Hidx]].
    exists st'. split.
    + simpl. rewrite Hadv. simpl. exact Hrest.
    + rewrite Hidx. unfold st1. cbn [currentZone].
      rewrite next_zone_mod by exact Hinv.
      unfold zone_in_range in Hinv.
      rewrite Z.add_mod_idemp_l by lia.
      f_equal. cbn [List.length]. lia.
Qed.

(** C8.  From every index in range, [ZONE_COUNT] honoured presses in a row
    (line 151 applied [ZONE_COUNT] times) run to their end and bring the
    selector back to the index it started from. *)
Theorem advance_full_cycle (zones : list TZ) (nows : list Z) (st : State) :
  zone_in_range zones st ->
  List.length nows = Z.to_nat (ZONE_COUNT zones) ->
  exists st',
    advances zones nows st = Some st'
    /\ currentZone st' = currentZone st.
Proof.
  intros Hinv Hlen.
  destruct (advances_index zones nows st Hinv) as [st' [Hrun Hidx]].
  exists st'. split; [exact Hrun |].
  rewrite Hidx, Hlen. unfold zone_in_range in Hinv.
  rewrite Z2Nat.id by lia.
  replace (currentZone st + ZONE_COUNT zones)
    with (currentZone st + 1 * ZONE_COUNT zones) by lia.
  rewrite Z.mod_add by lia.
  apply Z.mod_small. exact Hinv.
Qed.

Lemma advance_full_cycle_witness :
  exists st',
    advances zones [1000; 2000; 3000; 4000] (initial 0) = Some st'
    /\ currentZone st' = 2.
Proof.
  apply (advance_full_cycle zones [1000; 2000; 3000; 4000] (initial 0)).
  - unfold zone_in_range. vm_compute. split; [discriminate | reflexivity].
  - reflexivity.
Defined.

(** ** One pass of [loop] *)

Lemma button_block_published
      (zones : list TZ) (now1 now2 : Z) (st st' : State)
      (published : list Output) :
  button_block zones now1 now2 st = Some (st', published) ->
  published = [] \/ exists text, published = [Publish "clock/zone" text].
Proof.
  unfold button_block, advance_zone. intros Hblock.
  destruct (buttonPressed st
            && (DEBOUNCE <? to_uint32 (now1 - lastDebounceTime st))).
  - destruct (ZONE_COUNT zones =? 0); [discriminate |].
    destruct (zone_at zones (next_zone zones (currentZone st))) as [z |];
      [| discriminate].
    simpl in Hblock. injection Hblock as _ <-.
    right. exists (name z). reflexivity.
  - injection Hblock as _ <-. left. reflexivity.
Qed.

(** What a pass of [loop] that runs to its end has sent out. *)
Lemma loop_output
      (zones : list TZ) (inbox : list Message) (now1 now2 : Z)
      (st st' : State) (out : list Output) :
  loop zones inbox now1 now2 st = Some (st', out) ->
  exists st1 published z Dh Dm Ds,
    mqtt_loop zones inbox st = Some st1
    /\ button_block zones now1 now2 st1 = Some (st', published)
    /\ zone_at zones (currentZone st') = Some z
    /\ local_time (getEpoch st') (offset z) = (Dh, Dm, Ds)
    /\ out = published ++ [LcdTime Dh Dm Ds; LcdName (name z)]
             ++ beep (alarm_scan (name z) Dh Dm (alarms st'))
             ++ [Delay 200].
Proof.
  intros Hloop. unfold loop in Hloop.
  destruct (mqtt_loop zones inbox st) as [st1 |] eqn:Hmq; [| discriminate].
  cbn [bind] in Hloop.
  destruct (button_block zones now1 now2 st1) as [[st2 published] |] eqn:Hbb;
    [| discriminate].
  cbn [bind] in Hloop.
  destruct (zone_at zones (currentZone st2)) as [z |] eqn:Hz; [| discriminate].
  cbn [bind] in Hloop.
  destruct (local_time (getEpoch st2) (offset z)) as [[Dh Dm] Ds] eqn:Hlt.
  injection Hloop as <- <-.
  exists st1, published, z, Dh, Dm, Ds.
  repeat split; try reflexivity; assumption.
Qed.

Lemma alarm_matches_iff (zname : string) (Dh Dm : Z) (a : Alarm) :
  alarm_matches zname Dh Dm a = true
  <-> zone a = zname /\ h a = Dh /\ m a = Dm.
Proof.
  unfold alarm_matches.
  rewrite !andb_true_iff, String.eqb_eq, !Z.eqb_eq. tauto.
Qed.

(** The scan stops at the first alarm that matches. *)
Lemma alarm_scan_first (zname : string) (Dh Dm : Z) (table : list Alarm) :
  match alarm_scan zname Dh Dm table with
  | Some a =>
      exists before after,
        table = before ++ a :: after
        /\ alarm_matches zname Dh Dm a = true
        /\ Forall (fun b => alarm_matches zname Dh Dm b = false) before
  | None => Forall (fun b => alarm_matches zname Dh Dm b = false) table
  end.
Proof.
  induction table as [| a rest IH]; simpl.
  - constructor.
  - destruct (alarm_matches zname Dh Dm a) eqn:Ha.
    + exists [], rest. repeat split; [exact Ha | constructor].
    + destruct (alarm_scan zname Dh Dm rest) as [fired |].
      * destruct IH as [before [after [Heq [Hfired Hbefore]]]].
        exists (a :: before), after. rewrite Heq.
        repeat split; [exact Hfired | constructor; assumption].
      * constructor; assumption.
Qed.

Lemma tones_app (l l' : list Output) : tones (l ++ l') = (tones l + tones l')%nat.
Proof. unfold tones. rewrite filter_app, length_app. reflexivity. Qed.

Lemma zone_advances_app (l l' : list Output) :
  zone_advances (l ++ l') = (zone_advances l + zone_advances l')%nat.
Proof. unfold zone_advances. rewrite filter_app, length_app. reflexivity. Qed.

(** C9.  A pass of [loop] sounds the buzzer at most once.  It does so
    exactly when some alarm of the table has the name of the selected zone
    and the hour and minute just computed, and the alarm at which the scan
    stops is the first such alarm in table order: nothing before it matches,
    and what follows it is not looked at. *)
Theorem one_alarm_per_tick
        (zones : list TZ) (inbox : list Message) (now1 now2 : Z)
        (st st' : State) (out : list Output) :
  loop zones inbox now1 now2 st = Some (st', out) ->
  exists z Dh Dm Ds,
    zone_at zones (currentZone st') = Some z
    /\ local_time (getEpoch st') (offset z) = (Dh, Dm, Ds)
    /\ (tones out <= 1)%nat
    /\ match alarm_scan (name z) Dh Dm (alarms st') with
       | Some a =>
           tones out = 1%nat
           /\ exists before after,
                alarms st' = before ++ a :: after
                /\ (zone a = name z /\ h a = Dh /\ m a = Dm)
                /\ Forall (fun b => ~ (zone b = name z /\ h b = Dh /\ m b = Dm))
                          before
       | None =>
           tones out = 0%nat
           /\ Forall (fun b => ~ (zone b = name z /\ h b = Dh /\ m b = Dm))
                     (alarms st')
       end.
Proof.
  intros Hloop.
  destruct (loop_output _ _ _ _ _ _ _ Hloop)
    as [st1 [published [z [Dh [Dm [Ds [_ [Hblock [Hz [Hlt Hout]]]]]]]]]].
  exists z, Dh, Dm, Ds.
  split; [exact Hz |]. split; [exact Hlt |].
  assert (Hpub : tones published = 0%nat).
  { destruct (button_block_published _ _ _ _ _ _ Hblock) as [-> | [text ->]];
      reflexivity. }
  assert (Hno : forall l,
             Forall (fun b => alarm_matches (name z) Dh Dm b = false) l ->
             Forall (fun b => ~ (zone b = name z /\ h b = Dh /\ m b = Dm)) l).
  { intros l. apply Forall_impl. intros b Hb Hmatch.
    apply alarm_matches_iff in Hmatch. congruence. }
  pose proof (alarm_scan_first (name z) Dh Dm (alarms st')) as Hscan.
  rewrite Hout, !tones_app, Hpub.
  destruct (alarm_scan (name z) Dh Dm (alarms st')) as [a |].
  - split; [unfold tones; simpl; lia |]. split; [reflexivity |].
    destruct Hscan as [before [after [Heq [Ha Hbefore]]]].
    exists before, after. split; [exact Heq |].
    split; [apply alarm_matches_iff; exact Ha | apply Hno; exact Hbefore].
  - split; [unfold tones; simpl; lia |]. split; [reflexivity |].
    apply Hno. exact Hscan.
Qed.

Lemma one_alarm_per_tick_witness :
  let table := [ {| h := 6; m := 0; zone := "Tashkent" |};
                 {| h := 6; m := 0; zone := "Tashkent" |} ] in
  let out := [LcdTime 6 0 0; LcdName "Tashkent"; Tone 1000; Delay 3000;
              NoTone; Delay 200] in
  loop zones [] 1210 1210 (set_alarms table (initial 3600))
  = Some (set_alarms table (initial 3600), out)
  /\ (tones out <= 1)%nat.
Proof.
  intros table out.
  assert (Hloop : loop zones [] 1210 1210 (set_alarms table (initial 3600))
                  = Some (set_alarms table (initial 3600), out))
    by reflexivity.
  split; [exact Hloop |].
  destruct (one_alarm_per_tick zones [] 1210 1210 _ _ _ Hloop)
    as [z [Dh [Dm [Ds [_ [_ [Hle _]]]]]]].
  exact Hle.
Defined.

(** The time that a pass of [loop] displays is [local_time] of the clock's
    epoch and of the offset of the selected zone. *)
Lemma loop_displays_local_time
      (zones : list TZ) (inbox : list Message) (now1 now2 : Z)
      (st st' : State) (out : list Output) :
  loop zones inbox now1 now2 st = Some (st', out) ->
  exists z Dh Dm Ds,
    zone_at zones (currentZone st') = Some z
    /\ local_time (getEpoch st') (offset z) = (Dh, Dm, Ds)
    /\ 0 <= getEpoch st' < 2 ^ 32
    /\ In (LcdTime Dh Dm Ds) out.
Proof.
  intros Hloop.
  destruct (loop_output _ _ _ _ _ _ _ Hloop)
    as [st1 [published [z [Dh [Dm [Ds [_ [_ [Hz [Hlt Hout]]]]]]]]]].
  exists z, Dh, Dm, Ds.
  split; [exact Hz |]. split; [exact Hlt |].
  split; [apply to_uint32_range |].
  rewrite Hout. apply in_or_app. right. left. reflexivity.
Qed.

(** ** The button: a one-bit latch *)

Lemma run_button (zones : list TZ) (t : Z) (evs : list Event) (st : State) :
  run zones (EvButton t :: evs) st = run zones evs (onButton st).
Proof.
  simpl. destruct (run zones evs (onButton st)) as [[st2 out2] |];
    reflexivity.
Qed.

(** Edges with no pass of [loop] between them leave the same state as a
    single edge. *)
Lemma run_burst (zones : list TZ) (ts : list Z) (evs : list Event) (st : State) :
  run zones (map EvButton ts ++ evs) st
  = run zones evs (match ts with [] => st | _ :: _ => onButton st end).
Proof.
  revert st. induction ts as [| t rest IH]; intros st; [reflexivity |].
  cbn [map app]. rewrite run_button, IH.
  destruct rest; reflexivity.
Qed.

(** An edge sets a one-bit flag that only the button block clears.  At a
    pass of [loop] that receives no message, with a press pending (the flag
    was set already, or any number of edges arrived since the last pass),
    the zone advances exactly once if more than [DEBOUNCE] milliseconds
    have gone by since the last honoured press; otherwise nothing advances
    and the flag stays set. *)
Theorem pending_press_is_kept
        (zones : list TZ) (ts : list Z) (now1 now2 : Z) (st : State) :
  zone_in_range zones st ->
  buttonPressed st = true \/ ts <> [] ->
  exists st' out,
    run zones (map EvButton ts ++ [EvLoop [] now1 now2]) st = Some (st', out)
    /\ if DEBOUNCE <? to_uint32 (now1 - lastDebounceTime st)
       then zone_advances out = 1%nat
            /\ currentZone st' = next_zone zones (currentZone st)
            /\ buttonPressed st' = false
            /\ lastDebounceTime st' = to_uint32 now2
       else zone_advances out = 0%nat
            /\ currentZone st' = currentZone st
            /\ buttonPressed st' = true
            /\ lastDebounceTime st' = lastDebounceTime st.
Proof.
  intros Hinv Hpending. rewrite run_burst.
  set (st0 := match ts with [] => st | _ :: _ => onButton st end).
  assert (Hflag : buttonPressed st0 = true).
  { unfold st0. destruct ts; [| reflexivity].
    destruct Hpending as [Hp | Hne]; [exact Hp | congruence]. }
  assert (Hzone : currentZone st0 = currentZone st)
    by (unfold st0; destruct ts; reflexivity).
  assert (Hlast : lastDebounceTime st0 = lastDebounceTime st)
    by (unfold st0; destruct ts; reflexivity).
  assert (Hinv0 : zone_in_range zones st0)
    by (unfold zone_in_range; rewrite Hzone; exact Hinv).
  clearbody st0.
  cbn [run step]. unfold loop. cbn [mqtt_loop bind]. unfold button_block.
  rewrite Hflag, Hlast. cbn [andb].
  destruct (DEBOUNCE <? to_uint32 (now1 - lastDebounceTime st)).
  - destruct (advance_zone_runs zones now2 st0 Hinv0) as [z [Hz Hadv]].
    rewrite Hadv. cbn [bind currentZone]. rewrite Hz. cbn [bind].
    destruct (local_time _ _) as [[Dh Dm] Ds].
    eexists. eexists. split; [reflexivity |].
    rewrite Hzone. repeat split.
    rewrite !zone_advances_app.
    destruct (alarm_scan _ _ _ _); reflexivity.
  - destruct (zone_at_some zones (currentZone st0) Hinv0) as [z Hz].
    cbn [bind]. rewrite Hz. cbn [bind].
    destruct (local_time _ _) as [[Dh Dm] Ds].
    eexists. eexists. split; [reflexivity |].
    repeat split; try assumption.
    rewrite !zone_advances_app.
    destruct (alarm_scan _ _ _ _); reflexivity.
Qed.

Lemma pending_press_is_kept_witness :
  exists st' out,
    run zones (map EvButton [1000; 1050] ++ [EvLoop [] 1210 1210]) (initial 0)
    = Some (st', out)
    /\ zone_advances out = 1%nat
    /\ currentZone st' = 3.
Proof.
  destruct (pending_press_is_kept zones [1000; 1050] 1210 1210 (initial 0))
    as [st' [out [Hrun Hcase]]].
  - unfold zone_in_range. vm_compute. split; [discriminate | reflexivity].
  - right. discriminate.
  - exists st', out. split; [exact Hrun |].
    change (DEBOUNCE <? to_uint32 (1210 - lastDebounceTime (initial 0)))
      with true in Hcase.
    destruct Hcase as [Hadv [Hzone _]].
    split; [exact Hadv | exact Hzone].
Defined.

(** C5.  The code misses the debounce that it names (lines 43 and 45):
    when the window test of line 148 fails, the flag stays set.  Two edges
    50 ms apart therefore give two zone advances, not one, when a pass of
    [loop] honours the first edge before the second arrives: the second edge
    falls inside the window of the first, is not dropped, and is honoured by
    the next pass, 250 ms later. *)
Lemma two_edges_50ms_apart_advance_twice :
  let trace := [EvButton 1000; EvLoop [] 1010 1010;
                EvButton 1050; EvLoop [] 1260 1260] in
  edge_times trace = [1000; 1050]
  /\ 1050 - 1000 < DEBOUNCE
  /\ exists st' out,
       run zones trace (initial 0) = Some (st', out)
       /\ zone_advances out = 2%nat
       /\ currentZone st' = 0.
Proof.
  cbv zeta. split; [reflexivity |]. split; [reflexivity |].
  eexists. eexists. split; [vm_compute; reflexivity |].
  split; reflexivity.
Qed.

(** * Further properties of the firmware *)

(** ** The displayed time *)

Lemma local_time_range (epoch off : Z) (Dh Dm Ds : Z) :
  0 <= epoch < 2 ^ 32 ->
  - 2 ^ 31 <= off <= 2 ^ 31 - 86400 ->
  local_time epoch off = (Dh, Dm, Ds) ->
  0 <= Dh <= 23 /\ 0 <= Dm <= 59 /\ 0 <= Ds <= 59.
Proof.
  intros He Ho Hlt.
  rewrite (local_time_fields epoch off He Ho) in Hlt.
  set (secs := (epoch mod 86400 + off) mod 86400) in *.
  assert (Hs : 0 <= secs < 86400) by (apply Z.mod_pos_bound; lia).
  injection Hlt as <- <- <-.
  pose proof (Z.mod_pos_bound secs 3600 ltac:(lia)) as H3600.
  pose proof (Z.mod_pos_bound secs 60 ltac:(lia)) as H60.
  repeat split;
    try (apply Z.div_pos; lia);
    try (apply Z.lt_succ_r; apply Z.div_lt_upper_bound; lia);
    lia.
Qed.

(** The only time a pass of [loop] sends to the display is the local time
    of the selected zone. *)
Lemma loop_lcd_time
      (zones : list TZ) (inbox : list Message) (now1 now2 : Z)
      (st st' : State) (out : list Output) (Dh Dm Ds : Z) :
  loop zones inbox now1 now2 st = Some (st', out) ->
  In (LcdTime Dh Dm Ds) out ->
  exists z,
    zone_at zones (currentZone st') = Some z
    /\ local_time (getEpoch st') (offset z) = (Dh, Dm, Ds).
Proof.
  intros Hloop Hin.
  destruct (loop_output _ _ _ _ _ _ _ Hloop)
    as [st1 [published [z [Dh' [Dm' [Ds' [_ [Hblock [Hz [Hlt Hout]]]]]]]]]].
  exists z. split; [exact Hz |].
  rewrite Hout in Hin. apply in_app_or in Hin.
  destruct Hin as [Hin | Hin].
  - destruct (button_block_published _ _ _ _ _ _ Hblock) as [-> | [text ->]];
      simpl in Hin; [contradiction |].
    destruct Hin as [Hin | []]; discriminate.
  - simpl in Hin. destruct Hin as [Heq | [Heq | Hin]]; [| discriminate |].
    + injection Heq as <- <- <-. exact Hlt.
    + apply in_app_or in Hin. destruct Hin as [Hin | Hin].
      * destruct (alarm_scan (name z) Dh' Dm' (alarms st')); simpl in Hin;
          intuition discriminate.
      * simpl in Hin. intuition discriminate.
Qed.

Lemma offsets_fit_at (zones : list TZ) (i : Z) (z : TZ) :
  offsets_fit zones ->
  zone_at zones i = Some z ->
  - 2 ^ 31 <= offset z <= 2 ^ 31 - 86400.
Proof.
  intros Hfit Hz. unfold offsets_fit in Hfit.
  rewrite Forall_forall in Hfit. apply Hfit.
  eapply zone_at_in. exact Hz.
Qed.

(** X1.  Whatever the clock holds and whichever zone is selected, the time
    that a pass of [loop] sends to the display is a time of day: the hour
    is at most 23, the minute and the second at most 59. *)
Theorem displayed_time_is_time_of_day
        (zones : list TZ) (inbox : list Message) (now1 now2 : Z)
        (st st' : State) (out : list Output) (Dh Dm Ds : Z) :
  offsets_fit zones ->
  loop zones inbox now1 now2 st = Some (st', out) ->
  In (LcdTime Dh Dm Ds) out ->
  0 <= Dh <= 23 /\ 0 <= Dm <= 59 /\ 0 <= Ds <= 59.
Proof.
  intros Hfit Hloop Hin.
  destruct (loop_lcd_time _ _ _ _ _ _ _ _ _ _ Hloop Hin) as [z [Hz Hlt]].
  apply (local_time_range (getEpoch st') (offset z)).
  - apply to_uint32_range.
  - eapply offsets_fit_at; eassumption.
  - exact Hlt.
Qed.

Lemma zones_offsets_fit : offsets_fit zones.
Proof. repeat constructor; simpl; lia. Qed.

Lemma displayed_time_is_time_of_day_witness :
  0 <= 2 <= 23 /\ 0 <= 28 <= 59 /\ 0 <= 15 <= 59.
Proof.
  apply (displayed_time_is_time_of_day zones [] 0 0
           (set_currentZone 3 (initial 4294967295))
           (set_currentZone 3 (initial 4294967295))
           [LcdTime 2 28 15; LcdName "EST"; Delay 200] 2 28 15).
  - exact zones_offsets_fit.
  - vm_compute. reflexivity.
  - simpl. tauto.
Defined.

Lemma local_secs_closed (epoch off : Z) :
  0 <= epoch < 2 ^ 32 ->
  - 2 ^ 31 <= off <= 2 ^ 31 - 86400 ->
  local_secs epoch off = (epoch + off) mod 86400.
Proof.
  intros He Ho. rewrite local_secs_mod by assumption.
  apply Z.add_mod_idemp_l. lia.
Qed.

(** X2.  The second of the day follows the clock and the zone: [d] seconds
    later (as long as the epoch stays a [uint32_t]) it has advanced by [d]
    modulo one day, midnight included, and selecting a zone whose offset is
    [off'] instead of [off] moves it by [off' - off] modulo one day. *)
Theorem local_secs_follows_clock_and_zone (epoch off d off' : Z) :
  0 <= epoch ->
  0 <= d ->
  epoch + d < 2 ^ 32 ->
  - 2 ^ 31 <= off <= 2 ^ 31 - 86400 ->
  - 2 ^ 31 <= off' <= 2 ^ 31 - 86400 ->
  local_secs (epoch + d) off = (local_secs epoch off + d) mod 86400
  /\ local_secs epoch off' = (local_secs epoch off + (off' - off)) mod 86400.
Proof.
  intros He Hd Hmax Ho Ho'.
  rewrite !local_secs_closed by lia.
  rewrite !Z.add_mod_idemp_l by lia.
  split; f_equal; lia.
Qed.

Lemma local_secs_follows_clock_and_zone_witness :
  local_secs (86399 + 2) 7200 = (local_secs 86399 7200 + 2) mod 86400
  /\ local_secs 86399 (-14400) = (local_secs 86399 7200 + (-14400 - 7200)) mod 86400.
Proof.
  apply (local_secs_follows_clock_and_zone 86399 7200 2 (-14400)); lia.
Defined.

(** ** What makes the buzzer sound *)

Lemma tones_published
      (zones : list TZ) (now1 now2 : Z) (st st' : State)
      (published : list Output) :
  button_block zones now1 now2 st = Some (st', published) ->
  tones published = 0%nat.
Proof.
  intros Hblock.
  destruct (button_block_published _ _ _ _ _ _ Hblock) as [-> | [text ->]];
    reflexivity.
Qed.

(** A pass that sounds the buzzer has found an alarm of the table that
    names the selected zone and carries the displayed hour and minute. *)
Lemma loop_tone_cause
      (zones : list TZ) (inbox : list Message) (now1 now2 : Z)
      (st st' : State) (out : list Output) :
  loop zones inbox now1 now2 st = Some (st', out) ->
  (0 < tones out)%nat ->
  exists a z Ds,
    In a (alarms st')
    /\ zone_at zones (currentZone st') = Some z
    /\ zone a = name z
    /\ local_time (getEpoch st') (offset z) = (h a, m a, Ds).
Proof.
  intros Hloop Htone.
  destruct (loop_output _ _ _ _ _ _ _ Hloop)
    as [st1 [published [z [Dh [Dm [Ds [_ [Hblock [Hz [Hlt Hout]]]]]]]]]].
  rewrite Hout, !tones_app, (tones_published _ _ _ _ _ _ Hblock) in Htone.
  pose proof (alarm_scan_first (name z) Dh Dm (alarms st')) as Hscan.
  destruct (alarm_scan (name z) Dh Dm (alarms st')) as [a |].
  - destruct Hscan as [before [after [Heq [Ha _]]]].
    apply alarm_matches_iff in Ha. destruct Ha as [Hzone [Hh Hm]].
    exists a, z, Ds. split.
    + rewrite Heq. apply in_or_app. right. left. reflexivity.
    + split; [exact Hz |]. split; [exact Hzone |].
      rewrite Hh, Hm. exact Hlt.
  - unfold tones in Htone. simpl in Htone. lia.
Qed.

(** X3.  The buzzer has a cause.  A pass of [loop] that sounds it has an
    alarm in its table whose zone name is the name of the selected zone of
    the table, whose hour is at most 23 and whose minute is at most 59, and
    the pass displays that hour and minute. *)
Theorem buzzer_has_a_cause
        (zones : list TZ) (inbox : list Message) (now1 now2 : Z)
        (st st' : State) (out : list Output) :
  offsets_fit zones ->
  loop zones inbox now1 now2 st = Some (st', out) ->
  (0 < tones out)%nat ->
  exists a z Ds,
    In a (alarms st')
    /\ In z zones
    /\ zone_at zones (currentZone st') = Some z
    /\ zone a = name z
    /\ 0 <= h a <= 23
    /\ 0 <= m a <= 59
    /\ In (LcdTime (h a) (m a) Ds) out.
Proof.
  intros Hfit Hloop Htone.
  destruct (loop_tone_cause _ _ _ _ _ _ _ Hloop Htone)
    as [a [z [Ds [Ha [Hz [Hzone Hlt]]]]]].
  exists a, z, Ds.
  destruct (local_time_range (getEpoch st') (offset z) (h a) (m a) Ds)
    as [Hh [Hm _]];
    [apply to_uint32_range | eapply offsets_fit_at; eassumption | exact Hlt |].
  repeat split; try assumption; try lia.
  - eapply zone_at_in. exact Hz.
  - destruct (loop_output _ _ _ _ _ _ _ Hloop)
      as [st1 [published [z' [Dh [Dm [Ds' [_ [_ [Hz' [Hlt' Hout]]]]]]]]]].
    rewrite Hz in Hz'. injection Hz' as <-.
    rewrite Hlt in Hlt'. injection Hlt' as <- <- <-.
    rewrite Hout. apply in_or_app. right. left. reflexivity.
Qed.

Lemma buzzer_has_a_cause_witness :
  exists a z Ds,
    In a [ {| h := 6; m := 0; zone := "Tashkent" |} ]
    /\ In z zones
    /\ zone_at zones 2 = Some z
    /\ zone a = name z
    /\ 0 <= h a <= 23
    /\ 0 <= m a <= 59
    /\ In (LcdTime (h a) (m a) Ds)
          [LcdTime 6 0 0; LcdName "Tashkent"; Tone 1000; Delay 3000; NoTone;
           Delay 200].
Proof.
  apply (buzzer_has_a_cause zones [] 0 0
           (set_alarms [ {| h := 6; m := 0; zone := "Tashkent" |} ]
                       (initial 3600))
           (set_alarms [ {| h := 6; m := 0; zone := "Tashkent" |} ]
                       (initial 3600))
           [LcdTime 6 0 0; LcdName "Tashkent"; Tone 1000; Delay 3000; NoTone;
            Delay 200]).
  - exact zones_offsets_fit.
  - vm_compute. reflexivity.
  - vm_compute. reflexivity.
Defined.

(** X4.  An alarm that the handler stored with an hour above 23 or a minute
    above 59, or whose zone name is not in the zone table, never sounds:
    a pass of [loop] over a table of such alarms is silent. *)
Theorem invalid_alarms_are_silent
        (zones : list TZ) (inbox : list Message) (now1 now2 : Z)
        (st st' : State) (out : list Output) :
  offsets_fit zones ->
  loop zones inbox now1 now2 st = Some (st', out) ->
  Forall (fun a => 23 < h a \/ 59 < m a \/ ~ In (zone a) (map name zones))
         (alarms st') ->
  tones out = 0%nat.
Proof.
  intros Hfit Hloop Hbad.
  destruct (Nat.eq_0_gt_0_cases (tones out)) as [H0 | Hpos]; [exact H0 |].
  exfalso.
  destruct (loop_tone_cause _ _ _ _ _ _ _ Hloop Hpos)
    as [a [z [Ds [Ha [Hz [Hzone Hlt]]]]]].
  destruct (local_time_range (getEpoch st') (offset z) (h a) (m a) Ds)
    as [Hh [Hm _]];
    [apply to_uint32_range | eapply offsets_fit_at; eassumption | exact Hlt |].
  rewrite Forall_forall in Hbad.
  destruct (Hbad a Ha) as [Hbig | [Hbig | Hname]]; try lia.
  apply Hname. rewrite Hzone. apply in_map. eapply zone_at_in. exact Hz.
Qed.

Lemma invalid_alarms_are_silent_witness :
  tones [LcdTime 1 1 0; LcdName "UTC"; Delay 200] = 0%nat.
Proof.
  apply (invalid_alarms_are_silent zones [] 0 0
           (mkState 0 false 0 [ {| h := 25; m := 61; zone := "UTC" |};
                                {| h := 1; m := 1; zone := "Mars" |} ] 3660)
           (mkState 0 false 0 [ {| h := 25; m := 61; zone := "UTC" |};
                                {| h := 1; m := 1; zone := "Mars" |} ] 3660)).
  - exact zones_offsets_fit.
  - vm_compute. reflexivity.
  - apply Forall_cons; [left; simpl; lia |].
    apply Forall_cons; [| apply Forall_nil].
    right. right. simpl. intros [H | [H | [H | [H | []]]]]; discriminate.
Defined.

(** ** Messages as state updates *)

Lemma topic_cases (msg : Message) :
  topic msg = "clock/sync" \/ topic msg = "clock/zone"
  \/ topic msg = "clock/alarms"
  \/ (topic msg <> "clock/sync" /\ topic msg <> "clock/zone"
      /\ topic msg <> "clock/alarms").
Proof.
  destruct (String.eqb_spec (topic msg) "clock/sync"); [tauto |].
  destruct (String.eqb_spec (topic msg) "clock/zone"); [tauto |].
  destruct (String.eqb_spec (topic msg) "clock/alarms"); tauto.
Qed.

(** The scan of the zone names either faults, or finds an index, or falls
    back on the index it was given: which of the three does not depend on
    that index. *)
Lemma zone_loop_shape (zones : list TZ) (msg : string) (n : nat) (i : Z) :
  (forall cz, zone_loop zones msg n i cz = None)
  \/ (forall cz, zone_loop zones msg n i cz = Some cz)
  \/ (exists k, forall cz, zone_loop zones msg n i cz = Some k).
Proof.
  revert i. induction n as [| n IH]; intros i; simpl.
  - right. left. reflexivity.
  - destruct (zone_at zones i) as [z |]; simpl; [| left; reflexivity].
    destruct (String_equals msg (name z)); [| apply IH].
    right. right. exists i. reflexivity.
Qed.

(** Every message acts on the state as one of five updates that can be
    read off the message alone; the three setters belong to the three
    topics. *)
Lemma mqttCallback_effect (zones : list TZ) (msg : Message) :
  exists e,
    (forall st, mqttCallback zones msg st = apply_effect e st)
    /\ match e with
       | SetsClock _ => topic msg = "clock/sync"
       | SetsZone _ => topic msg = "clock/zone"
       | SetsAlarms _ => topic msg = "clock/alarms"
       | Faults | Keeps => True
       end.
Proof.
  destruct (topic_cases msg) as [Ht | [Ht | [Ht | [H1 [H2 H3]]]]].
  - exists (SetsClock (as_uint32 (scalar msg) (subscript (json msg) "epoch"))).
    split; [| exact Ht].
    intros st. apply mqttCallback_sync. exact Ht.
  - destruct (zone_loop_shape zones (payload msg)
                (Z.to_nat (ZONE_COUNT zones)) 0) as [Hf | [Hk | [k Hk]]].
    + exists Faults. split; [| exact I].
      intros st. rewrite mqttCallback_zone by exact Ht. rewrite Hf. reflexivity.
    + exists Keeps. split; [| exact I].
      intros st. rewrite mqttCallback_zone by exact Ht. rewrite Hk.
      simpl. rewrite set_currentZone_same. reflexivity.
    + exists (SetsZone k). split; [| exact Ht].
      intros st. rewrite mqttCallback_zone by exact Ht. rewrite Hk. reflexivity.
  - destruct (alarms_loop (as_JsonArray (json msg)) []) as [table |] eqn:Hloop.
    + exists (SetsAlarms table). split; [| exact Ht].
      intros st. rewrite mqttCallback_alarms by exact Ht.
      rewrite Hloop. reflexivity.
    + exists Faults. split; [| exact I].
      intros st. rewrite mqttCallback_alarms by exact Ht.
      rewrite Hloop. reflexivity.
  - exists Keeps. split; [| exact I].
    intros st. apply mqttCallback_other; assumption.
Qed.

Lemma mqtt_loop_two (zones : list TZ) (m1 m2 : Message) (st : State) :
  mqtt_loop zones [m1; m2] st
  = (st1 <- mqttCallback zones m1 st ;; mqttCallback zones m2 st1).
Proof.
  simpl. destruct (mqttCallback zones m1 st) as [st1 |]; simpl;
    [| reflexivity].
  destruct (mqttCallback zones m2 st1); reflexivity.
Qed.

(** X5.  A message changes nothing but the variable of its topic: none
    touches the button flag or the debounce time, only a time-sync changes
    the clock, only a zone-change the selected zone, only an alarm-sync the
    alarm table. *)
Theorem message_changes_only_its_variable
        (zones : list TZ) (msg : Message) (st st' : State) :
  mqttCallback zones msg st = Some st' ->
  buttonPressed st' = buttonPressed st
  /\ lastDebounceTime st' = lastDebounceTime st
  /\ (topic msg <> "clock/sync" -> rtc st' = rtc st)
  /\ (topic msg <> "clock/zone" -> currentZone st' = currentZone st)
  /\ (topic msg <> "clock/alarms" -> alarms st' = alarms st).
Proof.
  intros Hcb.
  destruct (mqttCallback_effect zones msg) as [e [He Htopic]].
  rewrite He in Hcb.
  destruct e; simpl in Hcb; try discriminate; injection Hcb as <-;
    simpl; repeat split; intros Hne; try reflexivity; congruence.
Qed.

Lemma message_changes_only_its_variable_witness :
  let st := mkState 1 true 77 [ {| h := 7; m := 30; zone := "UTC" |} ] 5 in
  let st' := setTime 1625074800 st in
  buttonPressed st' = buttonPressed st
  /\ lastDebounceTime st' = lastDebounceTime st
  /\ ("clock/sync" <> "clock/sync" -> rtc st' = rtc st)
  /\ ("clock/sync" <> "clock/zone" -> currentZone st' = currentZone st)
  /\ ("clock/sync" <> "clock/alarms" -> alarms st' = alarms st).
Proof.
  intros st st'.
  apply (message_changes_only_its_variable zones
           {| topic := "clock/sync"; payload := "";
              json := JObject [("epoch", JInteger 1625074800)]; scalar := 0 |} st st').
  reflexivity.
Defined.

(** X6.  Messages of different topics can be delivered in either order:
    the state afterwards, or the fault, is the same. *)
Theorem messages_of_different_topics_commute
        (zones : list TZ) (m1 m2 : Message) (st : State) :
  topic m1 <> topic m2 ->
  mqtt_loop zones [m1; m2] st = mqtt_loop zones [m2; m1] st.
Proof.
  intros Hne. rewrite !mqtt_loop_two.
  destruct (mqttCallback_effect zones m1) as [e1 [He1 Ht1]].
  destruct (mqttCallback_effect zones m2) as [e2 [He2 Ht2]].
  rewrite (He1 st), (He2 st).
  destruct e1, e2; simpl; rewrite ?He1, ?He2; simpl;
    try reflexivity; congruence.
Qed.

Lemma messages_of_different_topics_commute_witness :
  let sync := {| topic := "clock/sync"; payload := "";
                 json := JObject [("epoch", JInteger 3600)]; scalar := 0 |} in
  let zone := {| topic := "clock/zone"; payload := "CET"; json := JNull; scalar := 0 |} in
  mqtt_loop zones [sync; zone] (initial 0)
  = mqtt_loop zones [zone; sync] (initial 0).
Proof.
  intros sync zone.
  apply (messages_of_different_topics_commute zones sync zone (initial 0)).
  discriminate.
Defined.

(** X7.  Delivering a message twice in a row is the same as delivering it
    once. *)
Theorem message_is_idempotent (zones : list TZ) (msg : Message) (st : State) :
  mqtt_loop zones [msg; msg] st = mqttCallback zones msg st.
Proof.
  rewrite mqtt_loop_two.
  destruct (mqttCallback_effect zones msg) as [e [He _]].
  rewrite (He st).
  destruct e; simpl; rewrite ?He; reflexivity.
Qed.

(** X8.  Time-sync and alarm-sync messages are snapshots: of two messages
    of one of these topics, delivered one after the other, the first leaves
    no trace once the second has been applied, provided the first did not
    fault. *)
Theorem later_snapshot_wins
        (zones : list TZ) (m1 m2 : Message) (st : State) :
  topic m2 = "clock/sync" \/ topic m2 = "clock/alarms" ->
  topic m1 = topic m2 ->
  mqttCallback zones m1 st <> None ->
  mqtt_loop zones [m1; m2] st = mqttCallback zones m2 st.
Proof.
  intros Htopic Hsame Hok. rewrite mqtt_loop_two.
  destruct Htopic as [Ht | Ht].
  - rewrite (mqttCallback_sync zones m1 st) by congruence.
    simpl. rewrite !mqttCallback_sync by exact Ht. reflexivity.
  - rewrite (mqttCallback_alarms zones m1 st) in * by congruence.
    destruct (alarms_loop (as_JsonArray (json m1)) []) as [t1 |];
      [| exfalso; apply Hok; reflexivity].
    simpl. rewrite !mqttCallback_alarms by exact Ht.
    destruct (alarms_loop (as_JsonArray (json m2)) []); reflexivity.
Qed.

Lemma later_snapshot_wins_witness :
  let m1 := alarm_message "" (JArray [entry "07:30" "UTC"]) in
  let m2 := alarm_message "" (JArray [entry "23:59" "CET"]) in
  mqtt_loop zones [m1; m2] (initial 0) = mqttCallback zones m2 (initial 0).
Proof.
  intros m1 m2.
  apply (later_snapshot_wins zones m1 m2 (initial 0)).
  - right. reflexivity.
  - reflexivity.
  - discriminate.
Defined.

(** ** The published zone name comes back *)

(** X9.  The firmware is subscribed to the topic it publishes on.  With
    zone names that [strcmp] tells apart, the message that an honoured
    press publishes, when the broker hands it back to [mqttCallback], leaves
    the state as the press left it. *)
Theorem published_zone_echo_is_harmless
        (zones : list TZ) (now2 : Z) (st : State) (doc : JsonVariant)
        (number : Z) :
  zone_in_range zones st ->
  NoDup (c_names zones) ->
  (List.length zones <= 255)%nat ->
  exists st' text,
    advance_zone zones now2 st = Some (st', [Publish "clock/zone" text])
    /\ mqttCallback zones
         {| topic := "clock/zone"; payload := text; json := doc;
            scalar := number |} st'
       = Some st'.
Proof.
  intros Hinv Hnodup Hlen.
  destruct (advance_zone_runs zones now2 st Hinv) as [z [Hz Hadv]].
  eexists. exists (name z). split; [exact Hadv |].
  rewrite mqttCallback_zone by reflexivity.
  cbn [payload currentZone].
  pose proof (next_zone_range zones (currentZone st) Hinv) as Hnext.
  set (cz := next_zone zones (currentZone st)) in *.
  rewrite <- (Z2Nat.id cz) in Hz by lia. rewrite zone_at_nth in Hz.
  rewrite (zone_loop_selects zones (name z) (Z.to_nat cz) z cz Hnodup Hlen Hz
             eq_refl).
  simpl. rewrite Z2Nat.id by lia. reflexivity.
Qed.

Lemma published_zone_echo_is_harmless_witness :
  exists st' text,
    advance_zone zones 1010 (initial 0)
    = Some (st', [Publish "clock/zone" text])
    /\ mqttCallback zones
         {| topic := "clock/zone"; payload := text; json := JNull;
            scalar := 0 |} st'
       = Some st'.
Proof.
  apply (published_zone_echo_is_harmless zones 1010 (initial 0) JNull 0).
  - unfold zone_in_range. vm_compute. split; [discriminate | reflexivity].
  - exact zones_names_unique.
  - simpl. lia.
Defined.

(** ** The firmware never leaves the zone table *)

Lemma zone_loop_runs (zones : list TZ) (msg : string) (n : nat) (i cz : Z) :
  0 <= i ->
  i + Z.of_nat n <= ZONE_COUNT zones ->
  exists r, zone_loop zones msg n i cz = Some r.
Proof.
  revert i. induction n as [| n IH]; intros i Hi Hend; simpl.
  - exists cz. reflexivity.
  - pose proof (ZONE_COUNT_bounds zones).
    destruct (zone_at_some zones i ltac:(lia)) as [z Hz]. rewrite Hz. simpl.
    destruct (String_equals msg (name z)).
    + exists i. reflexivity.
    + rewrite to_uint8_small by lia. apply IH; lia.
Qed.

Lemma mqttCallback_runs (zones : list TZ) (msg : Message) (st : State) :
  readable msg ->
  exists st', mqttCallback zones msg st = Some st'.
Proof.
  intros Hread.
  destruct (topic_cases msg) as [Ht | [Ht | [Ht | [H1 [H2 H3]]]]].
  - rewrite mqttCallback_sync by exact Ht. eexists. reflexivity.
  - rewrite mqttCallback_zone by exact Ht.
    pose proof (ZONE_COUNT_bounds zones).
    destruct (zone_loop_runs zones (payload msg) (Z.to_nat (ZONE_COUNT zones))
                0 (currentZone st)) as [r Hr]; try lia.
    rewrite Hr. eexists. reflexivity.
  - rewrite mqttCallback_alarms by exact Ht.
    assert (Hsome : Forall (fun obj => alarm_of_entry obj <> None)
                           (as_JsonArray (json msg))).
    { eapply Forall_impl; [| exact (Hread Ht)].
      intros obj [t [Hobj Hlen]] Hnone.
      destruct (alarm_of_entry_long_enough obj t Hobj Hlen) as [a Ha].
      congruence. }
    destruct (alarms_loop_all _ [] Hsome) as [table [Hloop _]].
    rewrite Hloop. eexists. reflexivity.
  - rewrite mqttCallback_other by assumption. eexists. reflexivity.
Qed.

Lemma mqtt_loop_runs (zones : list TZ) (inbox : list Message) (st : State) :
  Forall readable inbox ->
  exists st', mqtt_loop zones inbox st = Some st'.
Proof.
  intros Hread. revert st.
  induction Hread as [| msg rest Hmsg _ IH]; intros st; simpl.
  - exists st. reflexivity.
  - destruct (mqttCallback_runs zones msg st Hmsg) as [st1 Hcb].
    rewrite Hcb. simpl. apply IH.
Qed.

Lemma loop_runs
      (zones : list TZ) (inbox : list Message) (now1 now2 : Z) (st : State) :
  zone_in_range zones st ->
  Forall readable inbox ->
  exists st' out, loop zones inbox now1 now2 st = Some (st', out).
Proof.
  intros Hinv Hread.
  destruct (mqtt_loop_runs zones inbox st Hread) as [st1 Hmq].
  pose proof (mqtt_loop_zone_in_range zones inbox st st1 Hinv Hmq) as Hinv1.
  assert (Hbb : exists st2 published,
             button_block zones now1 now2 st1 = Some (st2, published)).
  { unfold button_block.
    destruct (buttonPressed st1
              && (DEBOUNCE <? to_uint32 (now1 - lastDebounceTime st1))).
    - destruct (advance_zone_runs zones now2 st1 Hinv1) as [z [_ Hadv]].
      rewrite Hadv. eexists. eexists. reflexivity.
    - eexists. eexists. reflexivity. }
  destruct Hbb as [st2 [published Hbb]].
  pose proof (button_block_zone_in_range zones now1 now2 st1 st2 published
                Hinv1 Hbb) as Hinv2.
  destruct (zone_at_some zones (currentZone st2) Hinv2) as [z Hz].
  unfold loop. rewrite Hmq. cbn [bind]. rewrite Hbb. cbn [bind].
  rewrite Hz. cbn [bind].
  destruct (local_time (getEpoch st2) (offset z)) as [[Dh Dm] Ds].
  eexists. eexists. reflexivity.
Qed.

(** X10.  Started in a state whose selected index is in range, the firmware
    runs through any sequence of button edges, clock ticks and passes of
    [loop] without a read outside an object, as long as the four reads of
    every alarm-sync entry stay inside its time string: no index into the
    zone table ever leaves it. *)
Theorem firmware_runs_without_fault
        (zones : list TZ) (evs : list Event) (st : State) :
  zone_in_range zones st ->
  Forall (fun ev => Forall readable (inbox_of ev)) evs ->
  exists st' out, run zones evs st = Some (st', out).
Proof.
  intros Hinv Hread. revert st Hinv.
  induction Hread as [| ev rest Hev _ IH]; intros st Hinv.
  - exists st, []. reflexivity.
  - assert (Hstep : exists st1 out1, step zones ev st = Some (st1, out1)).
    { destruct ev as [t | d | inbox now1 now2]; simpl.
      - eexists. eexists. reflexivity.
      - eexists. eexists. reflexivity.
      - apply loop_runs; assumption. }
    destruct Hstep as [st1 [out1 Hstep]].
    pose proof (step_zone_in_range zones ev st st1 out1 Hinv Hstep) as Hinv1.
    destruct (IH st1 Hinv1) as [st2 [out2 Hrest]].
    exists st2, (out1 ++ out2).
    simpl. rewrite Hstep. cbn [bind]. rewrite Hrest. reflexivity.
Qed.

Lemma firmware_runs_without_fault_witness :
  exists st' out,
    run zones
      [EvButton 1000;
       EvLoop [alarm_message "" (JArray [entry "25:61" "Mars"]);
               {| topic := "clock/zone"; payload := "EST"; json := JNull; scalar := 0 |}]
              1010 1010;
       EvSeconds 5;
       EvLoop [] 1260 1260]
      (initial 0)
    = Some (st', out).
Proof.
  apply (firmware_runs_without_fault zones).
  - unfold zone_in_range. vm_compute. split; [discriminate | reflexivity].
  - repeat (apply Forall_cons || apply Forall_nil); intros Ht;
      try discriminate.
    cbn [alarm_message json as_JsonArray].
    apply Forall_cons; [| apply Forall_nil].
    exists "25:61". split; [reflexivity | simpl; lia].
Defined.

(** ** The button over a whole run *)

Lemma mqttCallback_button (zones : list TZ) (msg : Message) (st st' : State) :
  mqttCallback zones msg st = Some st' ->
  buttonPressed st' = buttonPressed st
  /\ lastDebounceTime st' = lastDebounceTime st.
Proof.
  intros Hcb.
  destruct (mqttCallback_effect zones msg) as [e [He _]].
  rewrite He in Hcb.
  destruct e; simpl in Hcb; try discriminate; injection Hcb as <-;
    split; reflexivity.
Qed.

Lemma mqtt_loop_button
      (zones : list TZ) (inbox : list Message) (st st' : State) :
  mqtt_loop zones inbox st = Some st' ->
  buttonPressed st' = buttonPressed st
  /\ lastDebounceTime st' = lastDebounceTime st.
Proof.
  revert st. induction inbox as [| msg rest IH]; intros st Hrun;
    simpl in Hrun.
  - injection Hrun as <-. split; reflexivity.
  - destruct (mqttCallback zones msg st) as [st1 |] eqn:Hcb; [| discriminate].
    simpl in Hrun.
    destruct (mqttCallback_button zones msg st st1 Hcb) as [Hb Hl].
    destruct (IH st1 Hrun) as [Hb' Hl'].
    split; congruence.
Qed.

Lemma zone_advances_loop
      (zones : list TZ) (inbox : list Message) (now1 now2 : Z)
      (st st' : State) (out : list Output) :
  loop zones inbox now1 now2 st = Some (st', out) ->
  exists st1 published,
    mqtt_loop zones inbox st = Some st1
    /\ button_block zones now1 now2 st1 = Some (st', published)
    /\ zone_advances out = zone_advances published.
Proof.
  intros Hloop.
  destruct (loop_output _ _ _ _ _ _ _ Hloop)
    as [st1 [published [z [Dh [Dm [Ds [Hmq [Hblock [_ [_ Hout]]]]]]]]]].
  exists st1, published. split; [exact Hmq |]. split; [exact Hblock |].
  rewrite Hout, !zone_advances_app.
  destruct (alarm_scan (name z) Dh Dm (alarms st')); unfold zone_advances;
    simpl; lia.
Qed.

(** The button block either honours the pending press, or leaves the state
    alone. *)
Lemma button_block_cases
      (zones : list TZ) (now1 now2 : Z) (st st' : State)
      (published : list Output) :
  button_block zones now1 now2 st = Some (st', published) ->
  (buttonPressed st = true
   /\ DEBOUNCE < to_uint32 (now1 - lastDebounceTime st)
   /\ zone_advances published = 1%nat
   /\ buttonPressed st' = false
   /\ lastDebounceTime st' = to_uint32 now2)
  \/ ((buttonPressed st = false
       \/ to_uint32 (now1 - lastDebounceTime st) <= DEBOUNCE)
      /\ st' = st /\ published = []).
Proof.
  unfold button_block, advance_zone. intros Hblock.
  destruct (buttonPressed st) eqn:Hflag; cbn [andb] in Hblock.
  - destruct (Z.ltb_spec DEBOUNCE (to_uint32 (now1 - lastDebounceTime st)))
      as [Hlt | Hge].
    + left.
      destruct (ZONE_COUNT zones =? 0); [discriminate |].
      destruct (zone_at zones (next_zone zones (currentZone st))) as [z |];
        [| discriminate].
      simpl in Hblock. injection Hblock as <- <-.
      repeat split; assumption || reflexivity.
    + right. injection Hblock as <- <-. repeat split. right. exact Hge.
  - right. injection Hblock as <- <-. repeat split. left. reflexivity.
Qed.

(** X11.  Every zone advance uses up a button edge: over any run, the
    number of advances, plus the press still pending at the end, is at most
    the number of edges of the run plus the press pending at the start.
    Messages and clock ticks never advance the zone. *)
Theorem advances_are_paid_by_edges
        (zones : list TZ) (evs : list Event) (st st' : State)
        (out : list Output) :
  run zones evs st = Some (st', out) ->
  (zone_advances out + pending st'
   <= pending st + List.length (edge_times evs))%nat.
Proof.
  revert st out. induction evs as [| ev rest IH]; intros st out Hrun;
    simpl in Hrun.
  - injection Hrun as <- <-. simpl. lia.
  - destruct (step zones ev st) as [[st1 out1] |] eqn:Hstep; [| discriminate].
    cbn [bind] in Hrun.
    destruct (run zones rest st1) as [[st2 out2] |] eqn:Hrest; [| discriminate].
    cbn [bind] in Hrun. injection Hrun as <- <-.
    specialize (IH st1 out2 Hrest). rewrite zone_advances_app.
    destruct ev as [t | d | inbox now1 now2]; simpl in Hstep.
    + injection Hstep as <- <-. cbn [edge_times List.length].
      unfold pending in *. simpl in *.
      destruct (buttonPressed st); simpl in *; lia.
    + injection Hstep as <- <-. cbn [edge_times].
      unfold pending in *. simpl in *. lia.
    + cbn [edge_times].
      destruct (zone_advances_loop _ _ _ _ _ _ _ Hstep)
        as [st0 [published [Hmq [Hblock Hadv]]]].
      destruct (mqtt_loop_button _ _ _ _ Hmq) as [Hflag _].
      rewrite Hadv.
      destruct (button_block_cases _ _ _ _ _ _ Hblock)
        as [[Hp [_ [Hone [Hclear _]]]] | [_ [-> ->]]].
      * unfold pending in *. rewrite Hclear in IH. rewrite <- Hflag, Hp.
        simpl in *. lia.
      * unfold pending in *. rewrite <- Hflag. simpl. lia.
Qed.

Lemma advances_are_paid_by_edges_witness :
  let evs := [EvButton 1000; EvLoop [] 1010 1010;
              EvButton 1050; EvLoop [] 1260 1260] in
  let out := [Publish "clock/zone" "EST"; LcdTime 20 0 0; LcdName "EST";
              Delay 200; Publish "clock/zone" "UTC"; LcdTime 0 0 0;
              LcdName "UTC"; Delay 200] in
  run zones evs (initial 0) = Some (mkState 0 false 1260 [] 0, out)
  /\ (zone_advances out + pending (mkState 0 false 1260 [] 0)
      <= pending (initial 0) + List.length (edge_times evs))%nat.
Proof.
  intros evs out.
  assert (Hrun : run zones evs (initial 0)
                 = Some (mkState 0 false 1260 [] 0, out))
    by (vm_compute; reflexivity).
  split; [exact Hrun |].
  exact (advances_are_paid_by_edges zones evs (initial 0) _ out Hrun).
Defined.

(** X12.  The debounce window holds back every advance: in a run all of
    whose passes of [loop] read [millis()] no more than [DEBOUNCE] after
    the last honoured press, no zone advance happens, however many edges
    arrive, and the time of the last honoured press stays as it was. *)
Theorem no_advance_inside_window
        (zones : list TZ) (evs : list Event) (st st' : State)
        (out : list Output) :
  Forall (within_window (lastDebounceTime st)) evs ->
  run zones evs st = Some (st', out) ->
  zone_advances out = 0%nat
  /\ lastDebounceTime st' = lastDebounceTime st.
Proof.
  intros Hwin. revert st st' out Hwin.
  induction evs as [| ev rest IH]; intros st st' out Hwin Hrun;
    simpl in Hrun.
  - injection Hrun as <- <-. split; reflexivity.
  - destruct (step zones ev st) as [[st1 out1] |] eqn:Hstep; [| discriminate].
    cbn [bind] in Hrun.
    destruct (run zones rest st1) as [[st2 out2] |] eqn:Hrest; [| discriminate].
    cbn [bind] in Hrun. injection Hrun as <- <-.
    inversion Hwin as [| ev' rest' Hev Hrest_win]; subst.
    assert (Hone : zone_advances out1 = 0%nat
                   /\ lastDebounceTime st1 = lastDebounceTime st).
    { destruct ev as [t | d | inbox now1 now2]; simpl in Hstep.
      - injection Hstep as <- <-. split; reflexivity.
      - injection Hstep as <- <-. split; reflexivity.
      - destruct (zone_advances_loop _ _ _ _ _ _ _ Hstep)
          as [st0 [published [Hmq [Hblock Hadv]]]].
        destruct (mqtt_loop_button _ _ _ _ Hmq) as [_ Hlast].
        simpl in Hev. rewrite Hadv.
        destruct (button_block_cases _ _ _ _ _ _ Hblock)
          as [[_ [Hlt _]] | [_ [-> ->]]].
        + rewrite Hlast in Hlt. lia.
        + split; [reflexivity | exact Hlast]. }
    destruct Hone as [Hzero Hlast].
    rewrite <- Hlast in Hrest_win.
    destruct (IH st1 st2 out2 Hrest_win Hrest) as [Hzero' Hlast'].
    rewrite zone_advances_app, Hzero, Hzero'.
    split; [reflexivity | congruence].
Qed.

Lemma no_advance_inside_window_witness :
  zone_advances [LcdTime 20 0 0; LcdName "EST"; Delay 200;
                 LcdTime 20 0 0; LcdName "EST"; Delay 200] = 0%nat
  /\ lastDebounceTime (mkState 3 true 1010 [] 0) = 1010.
Proof.
  apply (no_advance_inside_window zones
           [EvButton 1050; EvLoop [] 1100 1100; EvButton 1150;
            EvLoop [] 1210 1210]
           (mkState 3 false 1010 [] 0)
           (mkState 3 true 1010 [] 0)).
  - repeat (apply Forall_cons || apply Forall_nil); simpl;
      try exact I; vm_compute; discriminate.
  - vm_compute. reflexivity.
Defined.

(** ** The text on the display *)

Lemma fmt_02u_two_digits (n : Z) :
  0 <= n < 100 ->
  fmt_02u n = String (digit (n / 10)) (String (digit (n mod 10)) EmptyString).
Proof.
  intros Hn. rewrite <- (Z2Nat.id n) by lia.
  assert (Hk : (Z.to_nat n < 100)%nat) by lia.
  generalize dependent (Z.to_nat n). clear n Hn. intros k Hk.
  do 100 (destruct k as [| k]; [vm_compute; reflexivity |]).
  lia.
Qed.

(** X13.  The first LCD line is exactly the eight characters [HH:MM:SS]
    of the local time, two digits each, never cut by [snprintf], and it is
    written the way the alarm list is read: an alarm entry whose time
    string is the displayed text (or its first five characters) is stored
    with the displayed hour and minute. *)
Theorem display_text_reads_back
        (epoch off : Z) (Dh Dm Ds : Z) (z : string) :
  0 <= epoch < 2 ^ 32 ->
  - 2 ^ 31 <= off <= 2 ^ 31 - 86400 ->
  local_time epoch off = (Dh, Dm, Ds) ->
  lcd_time Dh Dm Ds = clock_text Dh Dm Ds
  /\ String.length (lcd_time Dh Dm Ds) = 8%nat
  /\ substring 0 5 (lcd_time Dh Dm Ds) = time_text Dh Dm
  /\ alarm_of_entry (entry (lcd_time Dh Dm Ds) z)
     = Some {| h := Dh; m := Dm; zone := z |}
  /\ alarm_of_entry (entry (time_text Dh Dm) z)
     = Some {| h := Dh; m := Dm; zone := z |}.
Proof.
  intros He Ho Hlt.
  destruct (local_time_range epoch off Dh Dm Ds He Ho Hlt) as [Hh [Hm Hs]].
  unfold lcd_time, snprintf.
  rewrite !fmt_02u_two_digits by lia.
  cbn [String.append Nat.sub substring String.length].
  split; [reflexivity |].
  split; [reflexivity |]. split; [reflexivity |].
  split; [| apply alarm_of_time_text; lia].
  unfold alarm_of_entry, entry. cbn.
  assert (Hq : forall n, 0 <= n < 100 -> 0 <= n / 10 <= 9 /\ 0 <= n mod 10 <= 9).
  { intros n Hn. pose proof (Z.div_mod n 10 ltac:(lia)).
    pose proof (Z.mod_pos_bound n 10 ltac:(lia)). lia. }
  destruct (Hq Dh ltac:(lia)) as [Hh1 Hh0].
  destruct (Hq Dm ltac:(lia)) as [Hm1 Hm0].
  rewrite !char_code_digit by assumption.
  f_equal. f_equal.
  - rewrite to_uint8_small; pose proof (Z.div_mod Dh 10 ltac:(lia)); lia.
  - rewrite to_uint8_small; pose proof (Z.div_mod Dm 10 ltac:(lia)); lia.
Qed.

Lemma display_text_reads_back_witness :
  lcd_time 3 0 59 = clock_text 3 0 59
  /\ String.length (lcd_time 3 0 59) = 8%nat
  /\ substring 0 5 (lcd_time 3 0 59) = time_text 3 0
  /\ alarm_of_entry (entry (lcd_time 3 0 59) "CET")
     = Some {| h := 3; m := 0; zone := "CET" |}
  /\ alarm_of_entry (entry (time_text 3 0) "CET")
     = Some {| h := 3; m := 0; zone := "CET" |}.
Proof.
  apply (display_text_reads_back 3659 (2 * 3600) 3 0 59 "CET").
  - lia.
  - lia.
  - reflexivity.
Defined.

(** ** Subscriptions *)

(** X14.  The firmware subscribes exactly when a connection attempt
    succeeds, and the subscriptions cover what it handles and what it
    sends: a message on a topic it never subscribes to leaves the state
    unchanged, and the zone name of an honoured press is published on a
    subscribed topic. *)
Theorem subscriptions_cover_the_handler (zones : list TZ) :
  (forall accepted, ensureMqtt true accepted = [])
  /\ (forall t, ~ subscribed (ensureMqtt false false) t)
  /\ (forall msg st,
        ~ subscribed (ensureMqtt false true) (topic msg) ->
        mqttCallback zones msg st = Some st)
  /\ (forall now2 st st' out t text,
        advance_zone zones now2 st = Some (st', out) ->
        In (Publish t text) out ->
        subscribed (ensureMqtt false true) t).
Proof.
  split; [reflexivity |].
  split.
  { intros t [H | []]. discriminate. }
  split.
  - intros msg st Hnot. apply mqttCallback_other; intros Ht; apply Hnot;
      rewrite Ht; unfold subscribed; simpl; tauto.
  - intros now2 st st' out t text Hadv Hin.
    unfold advance_zone in Hadv.
    destruct (ZONE_COUNT zones =? 0); [discriminate |].
    destruct (zone_at zones (next_zone zones (currentZone st))) as [z |];
      [| discriminate].
    simpl in Hadv. injection Hadv as _ <-.
    destruct Hin as [Heq | []]. injection Heq as <- _.
    unfold subscribed. simpl. tauto.
Qed.

Lemma subscriptions_cover_the_handler_witness :
  mqttCallback zones
    {| topic := "clock/reset"; payload := "now"; json := JNull; scalar := 0 |}
    (initial 7)
  = Some (initial 7).
Proof.
  apply (proj1 (proj2 (proj2 (subscriptions_cover_the_handler zones)))).
  unfold subscribed. simpl.
  intros [H | [H | [H | [H | []]]]]; discriminate.
Defined.

(** ** The alarm through its minute *)

Lemma local_time_same_minute (epoch off d : Z) (Dh Dm Ds : Z) :
  0 <= epoch ->
  0 <= d ->
  epoch + d < 2 ^ 32 ->
  - 2 ^ 31 <= off <= 2 ^ 31 - 86400 ->
  local_time epoch off = (Dh, Dm, Ds) ->
  Ds + d <= 59 ->
  local_time (epoch + d) off = (Dh, Dm, Ds + d).
Proof.
  intros He Hd Hmax Ho Hlt Hsame.
  rewrite (local_time_fields epoch off) in Hlt by lia.
  rewrite (local_time_fields (epoch + d) off) by lia.
  cbv zeta in *.
  rewrite Z.add_mod_idemp_l in * by lia.
  set (s := (epoch + off) mod 86400) in *.
  assert (Hs : 0 <= s < 86400) by (apply Z.mod_pos_bound; lia).
  injection Hlt as <- <- <-.
  pose proof (Z.div_mod s 60 ltac:(lia)) as Hs60.
  pose proof (Z.mod_pos_bound s 60 ltac:(lia)) as Hr60.
  assert (Hq60 : 0 <= s / 60 <= 1439).
  { split; [apply Z.div_pos; lia |].
    apply Z.lt_succ_r. apply Z.div_lt_upper_bound; lia. }
  assert (Hs' : (epoch + d + off) mod 86400 = s + d).
  { replace (epoch + d + off) with ((epoch + off) + d) by lia.
    rewrite <- Z.add_mod_idemp_l by lia. fold s.
    apply Z.mod_small. lia. }
  rewrite Hs'.
  assert (Hdiv60 : (s + d) / 60 = s / 60).
  { symmetry. apply (Z.div_unique (s + d) 60 (s / 60) (s mod 60 + d)); lia. }
  assert (Hmod60 : (s + d) mod 60 = s mod 60 + d).
  { symmetry. apply (Z.mod_unique (s + d) 60 (s / 60) (s mod 60 + d)); lia. }
  pose proof (Z.div_mod s 3600 ltac:(lia)) as Hs3600.
  pose proof (Z.mod_pos_bound s 3600 ltac:(lia)) as Hr3600.
  assert (Hmm : (s mod 3600) mod 60 = s mod 60).
  { apply Z.mod_mod_divide. exists 60. reflexivity. }
  pose proof (Z.div_mod (s mod 3600) 60 ltac:(lia)) as Hsm.
  assert (Hroom : s mod 3600 + d < 3600).
  { assert (0 <= (s mod 3600) / 60 <= 59).
    { split; [apply Z.div_pos; lia |].
      apply Z.lt_succ_r. apply Z.div_lt_upper_bound; lia. }
    lia. }
  assert (Hdiv3600 : (s + d) / 3600 = s / 3600).
  { symmetry.
    apply (Z.div_unique (s + d) 3600 (s / 3600) (s mod 3600 + d)); lia. }
  assert (Hmod3600 : (s + d) mod 3600 = s mod 3600 + d).
  { symmetry.
    apply (Z.mod_unique (s + d) 3600 (s / 3600) (s mod 3600 + d)); lia. }
  rewrite Hdiv3600, Hmod3600, Hmod60.
  f_equal. f_equal.
  symmetry.
  apply (Z.div_unique (s mod 3600 + d) 60 ((s mod 3600) / 60) (s mod 60 + d));
    lia.
Qed.

(** A pass with no message and no pending press leaves the state alone. *)
Lemma quiet_pass
      (zones : list TZ) (now1 now2 : Z) (st st' : State) (out : list Output) :
  buttonPressed st = false ->
  loop zones [] now1 now2 st = Some (st', out) ->
  st' = st
  /\ exists z Dh Dm Ds,
       zone_at zones (currentZone st) = Some z
       /\ local_time (getEpoch st) (offset z) = (Dh, Dm, Ds)
       /\ out = [LcdTime Dh Dm Ds; LcdName (name z)]
                ++ beep (alarm_scan (name z) Dh Dm (alarms st))
                ++ [Delay 200].
Proof.
  intros Hflag Hloop.
  destruct (loop_output _ _ _ _ _ _ _ Hloop)
    as [st1 [published [z [Dh [Dm [Ds [Hmq [Hblock [Hz [Hlt Hout]]]]]]]]]].
  simpl in Hmq. injection Hmq as <-.
  unfold button_block in Hblock. rewrite Hflag in Hblock.
  cbn [andb] in Hblock. injection Hblock as <- <-.
  split; [reflexivity |].
  exists z, Dh, Dm, Ds. repeat split; assumption.
Qed.

(** X15.  Nothing records that an alarm has sounded.  When a pass of [loop]
    with no message and no pending press sounds the buzzer, a pass [d]
    seconds later in the same minute (same table, same zone, no press)
    sounds it again. *)
Theorem alarm_sounds_again_within_its_minute
        (zones : list TZ) (now1 now2 now3 now4 : Z) (st st' : State)
        (out : list Output) (Dh Dm Ds : Z) (d : nat) :
  offsets_fit zones ->
  buttonPressed st = false ->
  0 <= rtc st ->
  rtc st + Z.of_nat d < 2 ^ 32 ->
  loop zones [] now1 now2 st = Some (st', out) ->
  In (LcdTime Dh Dm Ds) out ->
  (0 < tones out)%nat ->
  Ds + Z.of_nat d <= 59 ->
  exists st_d out',
    run zones [EvSeconds d; EvLoop [] now3 now4] st' = Some (st_d, out')
    /\ In (LcdTime Dh Dm (Ds + Z.of_nat d)) out'
    /\ tones out' = 1%nat.
Proof.
  intros Hfit Hflag Hrtc Hmax Hloop Hin Htone Hsame.
  destruct (quiet_pass _ _ _ _ _ _ Hflag Hloop)
    as [-> [z [Dh' [Dm' [Ds' [Hz [Hlt Hout]]]]]]].
  assert (Heq : (Dh', Dm', Ds') = (Dh, Dm, Ds)).
  { destruct (loop_lcd_time _ _ _ _ _ _ _ _ _ _ Hloop Hin) as [z' [Hz' Hlt']].
    rewrite Hz in Hz'. injection Hz' as <-. congruence. }
  injection Heq as -> -> ->.
  destruct (alarm_scan (name z) Dh Dm (alarms st)) as [a |] eqn:Hscan;
    [| rewrite Hout in Htone; unfold tones in Htone; simpl in Htone; lia].
  assert (Hepoch : getEpoch st = rtc st)
    by (apply to_uint32_small; lia).
  set (st_d := setTime (rtc st + Z.of_nat d) st).
  assert (Hepoch_d : getEpoch st_d = rtc st + Z.of_nat d)
    by (apply to_uint32_small; simpl; lia).
  assert (Hlt_d : local_time (getEpoch st_d) (offset z)
                  = (Dh, Dm, Ds + Z.of_nat d)).
  { rewrite Hepoch_d.
    apply local_time_same_minute; try lia.
    - eapply offsets_fit_at; eassumption.
    - rewrite <- Hepoch. exact Hlt. }
  exists st_d.
  exists ([] ++ ([] ++ [LcdTime Dh Dm (Ds + Z.of_nat d); LcdName (name z)]
                  ++ beep (Some a) ++ [Delay 200]) ++ []).
  split; [| split; [simpl; tauto | reflexivity]].
  cbn [run step bind]. fold st_d.
  unfold loop. cbn [mqtt_loop bind]. unfold button_block.
  change (buttonPressed st_d) with (buttonPressed st). rewrite Hflag.
  cbn [andb bind].
  change (currentZone st_d) with (currentZone st). rewrite Hz. cbn [bind].
  rewrite Hlt_d.
  change (alarms st_d) with (alarms st). rewrite Hscan.
  reflexivity.
Qed.

Lemma alarm_sounds_again_within_its_minute_witness :
  let st := set_alarms [ {| h := 6; m := 0; zone := "Tashkent" |} ]
                       (initial 3600) in
  exists st_d out',
    run zones [EvSeconds 30; EvLoop [] 4000 4000] st = Some (st_d, out')
    /\ In (LcdTime 6 0 (0 + Z.of_nat 30)) out'
    /\ tones out' = 1%nat.
Proof.
  intros st.
  apply (alarm_sounds_again_within_its_minute zones 0 0 4000 4000 st st
           [LcdTime 6 0 0; LcdName "Tashkent"; Tone 1000; Delay 3000;
            NoTone; Delay 200] 6 0 0 30).
  - exact zones_offsets_fit.
  - reflexivity.
  - simpl. lia.
  - simpl. lia.
  - vm_compute. reflexivity.
  - simpl. tauto.
  - vm_compute. reflexivity.
  - simpl. lia.
Defined.

(** ** From the messages to the display *)

(** X16.  A pass of [loop] that receives a time-sync with epoch [e] and a
    zone-change naming the zone [z] (names that [strcmp] tells apart, no
    press pending) ends
    with the clock at [e] and [z] selected, and shows the local time of [e]
    in [z] together with the name of [z]. *)
Theorem synced_pass_shows_local_time
        (zones : list TZ) (sync change : Message) (now1 now2 : Z)
        (st : State) (e : Z) (k : nat) (z : TZ) :
  NoDup (c_names zones) ->
  (List.length zones <= 255)%nat ->
  nth_error zones k = Some z ->
  0 <= e < 2 ^ 32 ->
  buttonPressed st = false ->
  topic sync = "clock/sync" ->
  subscript (json sync) "epoch" = JInteger e ->
  topic change = "clock/zone" ->
  payload change = name z ->
  exists out Dh Dm Ds,
    loop zones [sync; change] now1 now2 st
    = Some (mkState (Z.of_nat k) false (lastDebounceTime st) (alarms st) e,
            out)
    /\ local_time e (offset z) = (Dh, Dm, Ds)
    /\ In (LcdTime Dh Dm Ds) out
    /\ In (LcdName (name z)) out.
Proof.
  intros Hnodup Hlen Hz He Hflag Hts Hdoc Htc Hname.
  destruct (local_time e (offset z)) as [[Dh Dm] Ds] eqn:Hlt.
  set (st' := mkState (Z.of_nat k) false (lastDebounceTime st) (alarms st) e).
  assert (Hmq : mqtt_loop zones [sync; change] st = Some st').
  { rewrite mqtt_loop_two.
    rewrite (time_sync_sets_clock zones sync st e Hts Hdoc He). cbn [bind].
    rewrite mqttCallback_zone by exact Htc. rewrite Hname.
    rewrite (zone_loop_selects zones (name z) k z _ Hnodup Hlen Hz eq_refl).
    cbn [bind].
    unfold st', set_currentZone, setTime. simpl. rewrite Hflag. reflexivity. }
  exists ([] ++ [LcdTime Dh Dm Ds; LcdName (name z)]
             ++ beep (alarm_scan (name z) Dh Dm (alarms st')) ++ [Delay 200]).
  exists Dh, Dm, Ds.
  split; [| split; [reflexivity | split; simpl; tauto]].
  unfold loop. rewrite Hmq. cbn [bind].
  assert (Hepoch : getEpoch st' = e) by (apply to_uint32_small; exact He).
  unfold button_block.
  change (buttonPressed st') with false. cbn [andb bind].
  change (currentZone st') with (Z.of_nat k).
  rewrite zone_at_nth, Hz. cbn [bind].
  rewrite Hepoch, Hlt. reflexivity.
Qed.

Lemma synced_pass_shows_local_time_witness :
  exists out Dh Dm Ds,
    loop zones
      [ {| topic := "clock/sync"; payload := "";
           json := JObject [("epoch", JInteger 3600)]; scalar := 0 |};
        {| topic := "clock/zone"; payload := "CET"; json := JNull; scalar := 0 |} ]
      0 0 (initial 0)
    = Some (mkState (Z.of_nat 1) false (lastDebounceTime (initial 0))
                    (alarms (initial 0)) 3600, out)
    /\ local_time 3600 (offset {| offset := 2 * 3600; name := "CET" |})
       = (Dh, Dm, Ds)
    /\ In (LcdTime Dh Dm Ds) out
    /\ In (LcdName (name {| offset := 2 * 3600; name := "CET" |})) out.
Proof.
  apply (synced_pass_shows_local_time zones
           {| topic := "clock/sync"; payload := "";
              json := JObject [("epoch", JInteger 3600)]; scalar := 0 |}
           {| topic := "clock/zone"; payload := "CET"; json := JNull; scalar := 0 |}
           0 0 (initial 0) 3600 1 {| offset := 2 * 3600; name := "CET" |}).
  - exact zones_names_unique.
  - simpl. lia.
  - reflexivity.
  - lia.
  - reflexivity.
  - reflexivity.
  - reflexivity.
  - reflexivity.
  - reflexivity.
Defined.
